(** * SBLD24 notebooks: screening pipeline, PubChem lookups, undersampling

    A shallow embedding of the notebook cells that carry logic of their own:
    the rule-of-five filter, the conformer alignment loop and its batch
    application, the PubChem lookup cells and the undersampling loop of the
    toxicity notebook.  Calls into RDKit, pandas and requests are taken as
    interfaces (type classes); Python exceptions are an explicit result
    type. *)

From Stdlib Require Import QArith Qminmax.
From stdpp Require Import gmap strings list fin_maps sorting.

Open Scope Z_scope.
Open Scope list_scope.

(** ** Python exceptions and results *)

Inductive exception : Type :=
  | ValueError
  | KeyError
  | IndexError
  | TypeError
  | RuntimeError
  | ConnectionError.

Global Instance exception_eq_dec : EqDecision exception.
Proof. solve_decision. Defined.

Inductive result (A : Type) : Type :=
  | Return (a : A)
  | Raise (e : exception).
Arguments Return {A} a.
Arguments Raise {A} e.

Global Instance result_ret : MRet result := fun A a => Return a.

Global Instance result_bind : MBind result := fun A B k c =>
  match c with
  | Return a => k a
  | Raise e => Raise e
  end.

(** ** Rule of five  (notebook cell [calculate_ro5_properties]) *)

(** [rdkit.Chem.Descriptors], as far as the cell uses it.  Floats are read
    as rationals, counts as integers. *)
Class Descriptors (Molecule : Type) : Type := {
  ExactMolWt : Molecule -> Q;
  NumHAcceptors : Molecule -> Z;
  NumHDonors : Molecule -> Z;
  MolLogP : Molecule -> Q;
  TPSA : Molecule -> Q
}.

(** The [pd.Series] the cell returns, by index label. *)
Record Ro5Series : Type := {
  molecular_weight : Q;
  n_hba : Z;
  n_hbd : Z;
  logp : Q;
  tpsa : Q;
  ro5_fulfilled : bool
}.

Definition Qlt_bool (x y : Q) : bool := negb (Qle_bool y x).

(** Python's [sum] over a list of [bool]s. *)
Definition py_sum (conditions : list bool) : Z :=
  fold_left (fun acc (b : bool) => acc + (if b then 1 else 0)) conditions 0.

Section Ro5.
Context {Molecule : Type} `{Descriptors Molecule}.

Definition ro5_conditions (molecule : Molecule) : list bool :=
  [ Qle_bool (ExactMolWt molecule) 500;
    NumHAcceptors molecule <=? 10;
    NumHDonors molecule <=? 5;
    Qle_bool (MolLogP molecule) 5;
    Qlt_bool (TPSA molecule) 140 ].

Definition calculate_ro5_properties (molecule : Molecule) : Ro5Series :=
  let molecular_weight := ExactMolWt molecule in
  let n_hba := NumHAcceptors molecule in
  let n_hbd := NumHDonors molecule in
  let logp := MolLogP molecule in
  let TPSA := TPSA molecule in
  let conditions :=
    [ Qle_bool molecular_weight 500; n_hba <=? 10; n_hbd <=? 5;
      Qle_bool logp 5; Qlt_bool TPSA 140 ] in
  let ro5_fulfilled := py_sum conditions >? 4 in
  {| molecular_weight := molecular_weight; n_hba := n_hba; n_hbd := n_hbd;
     logp := logp; tpsa := TPSA; ro5_fulfilled := ro5_fulfilled |}.

(** Number of rule-of-five conditions a molecule satisfies. *)
Definition ro5_satisfied (molecule : Molecule) : Z :=
  py_sum (ro5_conditions molecule).
End Ro5.

(** A molecule given by its five descriptor values, to run the cell on. *)
Record DescribedMolecule : Type := {
  dm_weight : Q; dm_hba : Z; dm_hbd : Z; dm_logp : Q; dm_tpsa : Q
}.

Global Instance DescribedMolecule_descriptors : Descriptors DescribedMolecule := {
  ExactMolWt := dm_weight;
  NumHAcceptors := dm_hba;
  NumHDonors := dm_hbd;
  MolLogP := dm_logp;
  TPSA := dm_tpsa
}.

(** Heavy (600 Da) but otherwise within every threshold. *)
Definition heavy_molecule : DescribedMolecule :=
  {| dm_weight := 600; dm_hba := 5; dm_hbd := 2; dm_logp := 3; dm_tpsa := 100 |}.

(** ** Tanimoto similarity of fingerprints *)

(** A fingerprint: a fixed-length bit vector. *)
Definition BitVect : Type := list bool.

Fixpoint NumOnBits (v : BitVect) : nat :=
  match v with
  | [] => 0
  | b :: v' => (if b then 1 else 0) + NumOnBits v'
  end.

(** |A∩B| and |A∪B|, bit by bit. *)
Definition intersection_count (a b : BitVect) : nat := NumOnBits (zip_with andb a b).
Definition union_count (a b : BitVect) : nat := NumOnBits (zip_with orb a b).

(** Modelled from the spec: [DataStructs.TanimotoSimilarity] is RDKit code,
    absent from the repository, which only calls it.  The spec gives the
    value for two equal-length bit vectors: intersection-count /
    union-count, and 1.0 exactly on identical vectors.  Two all-zero
    vectors are identical and their quotient is 0/0, so there the value is
    the 1.0 that the second clause fixes.  Vectors of different lengths
    are refused with [ValueError]. *)
Definition TanimotoSimilarity (a b : BitVect) : result Q :=
  if bool_decide (length a = length b) then
    match union_count a b with
    | O => Return 1%Q
    | S _ as u => Return (Z.of_nat (intersection_count a b) # Pos.of_nat u)
    end
  else Raise ValueError.

(** Modelled from the spec: [DataStructs.FingerprintSimilarity] is called
    without a metric and scores with the Tanimoto similarity. *)
Definition FingerprintSimilarity (a b : BitVect) : result Q := TanimotoSimilarity a b.

(** ** Ranking: sort by score, keep the first ten *)

Section StableSort.
Context {A : Type} (leb : A -> A -> bool).

Fixpoint insert_by (x : A) (l : list A) : list A :=
  match l with
  | [] => [x]
  | y :: l' => if leb x y then x :: y :: l' else y :: insert_by x l'
  end.

(** A stable sort: insertion from the right keeps rows with equal keys in
    their original order.  It orders the class counts ([sort_index], whose
    keys are distinct), and it is the order the spec expects of the
    ranking cells. *)
Fixpoint stable_sort (l : list A) : list A :=
  match l with
  | [] => []
  | x :: l' => insert_by x (stable_sort l')
  end.

(** Rows tied with [a]. *)
Definition tied (a x : A) : bool := leb a x && leb x a.

(** [l] is the stable sort of [l0]: an ordered rearrangement in which
    rows with tied keys keep the order they have in [l0]. *)
Definition stably_sorted_of (l0 l : list A) : Prop :=
  l ≡ₚ l0 /\
  StronglySorted (fun x y => leb x y = true) l /\
  forall a, List.filter (tied a) l = List.filter (tied a) l0.

(** No two rows of [l] have tied keys. *)
Definition tie_free (l : list A) : Prop :=
  ForallOrdPairs (fun x y => tied x y = false) l.

(** Insertion behind the rows that [x] is tied with. *)
Fixpoint insert_behind_ties (x : A) (l : list A) : list A :=
  match l with
  | [] => [x]
  | y :: l' => if leb y x then y :: insert_behind_ties x l' else x :: y :: l'
  end.

(** A sort that is not stable: rows with equal keys come out in the
    reverse of their original order. *)
Fixpoint reversing_sort (l : list A) : list A :=
  match l with
  | [] => []
  | x :: l' => insert_behind_ties x (reversing_sort l')
  end.
End StableSort.

(** A score column: a float, or missing ([None]/NaN).  Missing scores sort
    last in either direction (pandas' default [na_position]). *)
Definition score_leb (ascending : bool) (a b : option Q) : bool :=
  match a, b with
  | _, None => true
  | None, Some _ => false
  | Some x, Some y => if ascending then Qle_bool x y else Qle_bool y x
  end.

(** One row of the screening [dataset]. *)
Record Candidate : Type := {
  chembl_id : string;
  smiles : string;
  MACCS_ts : Q;
  Morgan_ts : Q;
  ShapeSimilarity : option Q
}.

(** The order on rows that a score column and a direction induce. *)
Definition row_leb {Row} (by_ : Row -> option Q) (ascending : bool) (r1 r2 : Row) : bool :=
  score_leb ascending (by_ r1) (by_ r2).

(** [df.sort_values(by=..., ascending=...)], called as the cells call it,
    without [kind=].  pandas then sorts with its default routine
    (quicksort), which is library code: it returns the rows in the order
    of the score, missing scores last, and settles the order of rows with
    tied scores as it likes. *)
Class SortValues : Type := {
  sort_values : forall {Row : Type}, (Row -> option Q) -> bool -> list Row -> list Row;
  sort_values_Permutation :
    forall {Row : Type} (by_ : Row -> option Q) (ascending : bool) (df : list Row),
      sort_values by_ ascending df ≡ₚ df;
  sort_values_StronglySorted :
    forall {Row : Type} (by_ : Row -> option Q) (ascending : bool) (df : list Row),
      StronglySorted (fun r1 r2 => row_leb by_ ascending r1 r2 = true)
        (sort_values by_ ascending df)
}.

Section Ranking.
Context `{SortValues}.

(** [dataset.sort_values(by='MACCS_ts', ascending=False)[:10]] *)
Definition top_hits_MACCS (dataset : list Candidate) : list Candidate :=
  take 10 (sort_values (fun r => Some (MACCS_ts r)) false dataset).

(** [dataset.sort_values(by='ShapeSimilarity', ascending=True)[:10]] *)
Definition top_hits_Shape (dataset : list Candidate) : list Candidate :=
  take 10 (sort_values ShapeSimilarity true dataset).
End Ranking.

(** Four candidates, two pairs with tied Tanimoto scores. *)
Definition tied_frame : list Candidate :=
  [ {| chembl_id := "CHEMBL0"; smiles := "CCO"; MACCS_ts := 1 # 2;
       Morgan_ts := 1 # 4; ShapeSimilarity := None |};
    {| chembl_id := "CHEMBL1"; smiles := "CCN"; MACCS_ts := 1 # 2;
       Morgan_ts := 1 # 5; ShapeSimilarity := None |};
    {| chembl_id := "CHEMBL2"; smiles := "CCC"; MACCS_ts := 9 # 10;
       Morgan_ts := 1 # 2; ShapeSimilarity := None |};
    {| chembl_id := "CHEMBL3"; smiles := "CCCl"; MACCS_ts := 9 # 10;
       Morgan_ts := 1 # 3; ShapeSimilarity := None |} ].

(** ** Shape screening: conformers and O3A alignment *)

(** The RDKit calls of [embed_optimize_align_molecule].  Calls that work in
    place return the molecule they leave behind; [Align] moves the probe's
    conformer and reports the score. *)
Class ShapeToolkit (Molecule O3A : Type) : Type := {
  AddHs : Molecule -> Molecule;
  EmbedMultipleConfs : Molecule -> nat -> Molecule;
  MMFFOptimizeMoleculeConfs : Molecule -> Molecule;
  GetNumConformers : Molecule -> nat;
  GetO3A : Molecule -> Molecule -> nat -> result O3A;
  Align : O3A -> Molecule -> Q * Molecule
}.

(** [np.min] of a Python list; an empty list has no minimum. *)
Definition np_min (scores : list Q) : result Q :=
  match scores with
  | [] => Raise ValueError
  | s :: rest => Return (fold_left Qmin rest s)
  end.

(** How the [for cid in range(...)] loop ends. *)
Inductive loop_exit : Type :=
  | ReturnedNone
  | Completed (scores : list Q).

Section Shape.
Context {Molecule O3A : Type} `{ShapeToolkit Molecule O3A}.

Fixpoint conformer_loop (mol query : Molecule) (cids : list nat)
    (scores : list Q) : result loop_exit :=
  match cids with
  | [] => Return (Completed scores)
  | cid :: rest =>
      match GetO3A mol query cid with
      | Raise ValueError => Return ReturnedNone
      | Raise e => Raise e
      | Return o3a =>
          let '(alignment_score, mol') := Align o3a mol in
          conformer_loop mol' query rest (scores ++ [alignment_score])
      end
  end.

(** The molecule the loop starts from. *)
Definition prepare (mol : Molecule) (num_conformers : nat) : Molecule :=
  MMFFOptimizeMoleculeConfs (EmbedMultipleConfs (AddHs mol) num_conformers).

Definition embed_optimize_align_molecule (mol query : Molecule)
    (num_conformers : nat) : result (option Q) :=
  let mol := prepare mol num_conformers in
  exit ← conformer_loop mol query (seq 0 (GetNumConformers mol)) [];
  match exit with
  | ReturnedNone => Return None
  | Completed scores => m ← np_min scores; Return (Some m)
  end.

(** The probe molecule as conformer [k] finds it, conformers [0..k-1]
    having been aligned. *)
Fixpoint probe_before (mol query : Molecule) (k : nat) : Molecule :=
  match k with
  | O => mol
  | S k' =>
      let m := probe_before mol query k' in
      match GetO3A m query k' with
      | Return o3a => snd (Align o3a m)
      | Raise _ => m
      end
  end.

(** What constructing the alignment of conformer [cid] does. *)
Definition construct (mol query : Molecule) (cid : nat) : result O3A :=
  GetO3A (probe_before mol query cid) query cid.

(** The alignment score of conformer [cid]. *)
Definition score_of (mol query : Molecule) (cid : nat) : Q :=
  match construct mol query cid with
  | Return o3a => fst (Align o3a (probe_before mol query cid))
  | Raise _ => 0
  end.

(** The loop reaches conformer [cid] and its construction raises [e]. *)
Definition fails_at (mol query : Molecule) (cid : nat) (e : exception) : Prop :=
  construct mol query cid = Raise e /\
  forall c, (c < cid)%nat -> exists o3a, construct mol query c = Return o3a.
End Shape.

(** [series.progress_apply(f)]: [f] on every record in order; an exception
    ends the pass. *)
Fixpoint progress_apply {A B} (f : A -> result B) (records : list A) : result (list B) :=
  match records with
  | [] => Return []
  | x :: rest => y ← f x; ys ← progress_apply f rest; Return (y :: ys)
  end.

(** [dataset['rdkitmol'].progress_apply(lambda x:
      embed_optimize_align_molecule(x, query_h, num_conformers=2))] *)
Definition shape_screen {Molecule O3A} `{ShapeToolkit Molecule O3A}
    (query_h : Molecule) (rdkitmol : list Molecule) : result (list (option Q)) :=
  progress_apply (fun x => embed_optimize_align_molecule x query_h 2) rdkitmol.

(** A toolkit to run the loop on: a molecule is the list of what each of
    its conformers does, [None] for a construction that raises
    [ValueError]. *)
Global Instance scripted_toolkit : ShapeToolkit (list (option Q)) Q := {
  AddHs := fun m => m;
  EmbedMultipleConfs := fun m _ => m;
  MMFFOptimizeMoleculeConfs := fun m => m;
  GetNumConformers := fun m => length m;
  GetO3A := fun m _ cid =>
    match m !! cid with
    | Some (Some s) => Return s
    | Some None => Raise ValueError
    | None => Raise RuntimeError
    end;
  Align := fun o3a m => (o3a, m)
}.

(** ** PubChem lookup cells *)

(** Decoded JSON, as [r.json()] hands it to Python. *)
#[warnings="-register-all"]
Inductive pyval : Type :=
  | PNone
  | PBool (b : bool)
  | PInt (z : Z)
  | PFloat (q : Q)
  | PStr (s : string)
  | PList (l : list pyval)
  | PDict (d : gmap string pyval).

Definition is_substring (needle hay : string) : bool :=
  match String.index 0 needle hay with
  | Some _ => true
  | None => false
  end.

(** [item in container], for a string [item]. *)
Definition py_contains (container : pyval) (item : string) : result bool :=
  match container with
  | PDict d => Return (match d !! item with Some _ => true | None => false end)
  | PList l =>
      Return (existsb (fun v => match v with PStr s => String.eqb s item | _ => false end) l)
  | PStr s => Return (is_substring item s)
  | _ => Raise TypeError
  end.

(** [container[key]] for a string key. *)
Definition py_getitem_str (container : pyval) (key : string) : result pyval :=
  match container with
  | PDict d => match d !! key with Some v => Return v | None => Raise KeyError end
  | _ => Raise TypeError
  end.

(** [container[i]] for an integer index; negative indices count from the
    end. *)
Definition py_getitem_int (container : pyval) (i : Z) : result pyval :=
  match container with
  | PList l =>
      let j := if i <? 0 then Z.of_nat (length l) + i else i in
      if j <? 0 then Raise IndexError
      else match l !! Z.to_nat j with Some v => Return v | None => Raise IndexError end
  | PStr s =>
      let j := if i <? 0 then Z.of_nat (String.length s) + i else i in
      if j <? 0 then Raise IndexError
      else match String.get (Z.to_nat j) s with
           | Some c => Return (PStr (String c EmptyString))
           | None => Raise IndexError
           end
  | PDict _ => Raise KeyError
  | _ => Raise TypeError
  end.

(** How [r.json()] fails: the body is not JSON
    ([requests.exceptions.JSONDecodeError], a subclass of [ValueError]),
    or it is nested deeper than the interpreter's recursion limit
    ([RecursionError], a subclass of [RuntimeError]). *)
Inductive json_failure : Type :=
  | JSONDecodeError
  | RecursionError.

(** The class an [except] clause sees for a failure of [r.json()]. *)
Definition json_failure_class (why : json_failure) : exception :=
  match why with
  | JSONDecodeError => ValueError
  | RecursionError => RuntimeError
  end.

(** What the server does with one request: it answers with a body that
    decodes to [body], it answers with a body that [r.json()] cannot
    decode, or it cannot be reached. *)
Inductive http_outcome : Type :=
  | Responded (body : pyval)
  | Unreachable
  | Undecodable (why : json_failure).

(** The compound database: its answer may depend on the requests made so
    far. *)
Definition Server : Type := list string -> string -> http_outcome.

(** The [requests.Response] object, as far as the cells use it: what its
    [json()] will give. *)
Inductive Response : Type :=
  | Body (decoded : pyval)
  | BadBody (why : json_failure).

(** [requests.get(url)]: one request, appended to the log of requests.  It
    returns whatever the server sent, decodable or not, and raises only
    when no answer came. *)
Definition requests_get (server : Server) (url : string) (log : list string)
    : result Response * list string :=
  (match server log url with
   | Responded body => Return (Body body)
   | Undecodable why => Return (BadBody why)
   | Unreachable => Raise ConnectionError
   end, log ++ [url]).

(** [r.json()] *)
Definition json (r : Response) : result pyval :=
  match r with
  | Body decoded => Return decoded
  | BadBody why => Raise (json_failure_class why)
  end.


Definition cids_url (name : string) : string :=
  "https://pubchem.ncbi.nlm.nih.gov/rest/pug/compound/name/" +:+ name +:+ "/cids/JSON".

Definition molecular_weight_url (cid : string) : string :=
  "https://pubchem.ncbi.nlm.nih.gov/rest/pug/compound/cid/" +:+ cid +:+
  "/property/MolecularWeight/JSON".

(** Cell "Get PubChem CID by name". *)
Definition cid_by_name (server : Server) (name : string) (log : list string)
    : result pyval * list string :=
  let url := cids_url name in
  let '(r, log) := requests_get server url log in
  (r ← r;
   response ← json r;
   found ← py_contains response "IdentifierList";
   if found : bool then
     identifier_list ← py_getitem_str response "IdentifierList";
     cids ← py_getitem_str identifier_list "CID";
     py_getitem_int cids 0
   else Raise ValueError,
   log).

(** Cell "Get molecular weight". *)
Definition molecular_weight_by_cid (server : Server) (cid : string) (log : list string)
    : result pyval * list string :=
  let url := molecular_weight_url cid in
  let '(r, log) := requests_get server url log in
  (r ← r;
   response ← json r;
   found ← py_contains response "PropertyTable";
   if found : bool then
     property_table ← py_getitem_str response "PropertyTable";
     properties ← py_getitem_str property_table "Properties";
     first ← py_getitem_int properties 0;
     py_getitem_str first "MolecularWeight"
   else Raise ValueError,
   log).

(** ** Undersampling of the toxicity table *)

Record ToxRow : Type := {
  Compound_Name : string;
  SMILES : string;
  Severity_Class : Z
}.

(** A dataframe: rows under their index labels. *)
Definition DataFrame : Type := list (nat * ToxRow).

Definition index (df : DataFrame) : list nat := df.*1.

(** [df.reset_index(drop=True)] *)
Definition reset_index (df : DataFrame) : DataFrame :=
  zip (seq 0 (length df)) (df.*2).

(** [df[df['SMILES'].apply(neutral)].reset_index(drop=True)]; [neutral]
    stands for the formal-charge test on the parsed molecule. *)
Definition drop_charged (neutral : string -> bool) (df : DataFrame) : DataFrame :=
  reset_index (List.filter (fun r => neutral (SMILES r.2)) df).

(** [df[df['Severity Class'] == c]] *)
Definition where_class (df : DataFrame) (c : Z) : DataFrame :=
  List.filter (fun r => Severity_Class r.2 =? c) df.

(** [df['Severity Class'].value_counts()]: each class with its number of
    rows, most frequent first. *)
Definition value_counts (df : DataFrame) : list (Z * nat) :=
  stable_sort (fun a b => (b.2 <=? a.2)%nat)
    (map (fun c => (c, length (where_class df c)))
         (remove_dups (map (fun r => Severity_Class r.2) df))).

(** [series.sort_index()] *)
Definition sort_index (counts : list (Z * nat)) : list (Z * nat) :=
  stable_sort (fun a b => a.1 <=? b.1) counts.

Fixpoint idxmax_from (best : Z * nat) (counts : list (Z * nat)) : Z :=
  match counts with
  | [] => best.1
  | item :: rest =>
      if (best.2 <? item.2)%nat then idxmax_from item rest else idxmax_from best rest
  end.

(** [series.idxmax()]: the first label with the largest count. *)
Definition idxmax (counts : list (Z * nat)) : result Z :=
  match counts with
  | [] => Raise ValueError
  | item :: rest => Return (idxmax_from item rest)
  end.

(** [df.loc[labels]]: for each label the rows that carry it. *)
Fixpoint loc (df : DataFrame) (labels : list nat) : result DataFrame :=
  match labels with
  | [] => Return []
  | l :: rest =>
      match List.filter (fun r => (r.1 =? l)%nat) df with
      | [] => Raise KeyError
      | rows => others ← loc df rest; Return (rows ++ others)
      end
  end.

(** [df.sample(n=..., random_state=...)]: [n] rows of [df], each taken at
    most once, in some order; more than [df] has is an error. *)
Class Sampler : Type := {
  sample : DataFrame -> nat -> Z -> result DataFrame;
  sample_too_many : forall df n seed,
    (length df < n)%nat -> sample df n seed = Raise ValueError;
  sample_draws : forall df n seed,
    (n <= length df)%nat ->
    exists s, sample df n seed = Return s /\ length s = n /\ s ⊆+ df
}.

Definition desired_size : nat := 40.

(** The rows the loop adds for class [c], [s] being the sample drawn from
    the most populated class. *)
Definition block (df_tox_cleaned : DataFrame) (most_populated_class : Z)
    (s : DataFrame) (c : Z) : DataFrame :=
  if c =? most_populated_class then s else where_class df_tox_cleaned c.

Section Undersampling.
Context `{Sampler}.

Fixpoint undersampling_loop (df_tox_cleaned : DataFrame) (most_populated_class : Z)
    (items : list (Z * nat)) (balanced_df : DataFrame) : result DataFrame :=
  match items with
  | [] => Return balanced_df
  | (severity_class, count) :: rest =>
      undersampled_indices ←
        (if severity_class =? most_populated_class then
           s ← sample (where_class df_tox_cleaned severity_class) desired_size 42;
           Return (index s)
         else Return (index (where_class df_tox_cleaned severity_class)));
      rows ← loc df_tox_cleaned undersampled_indices;
      undersampling_loop df_tox_cleaned most_populated_class rest (balanced_df ++ rows)
  end.

Definition undersample (df_tox_cleaned : DataFrame) : result DataFrame :=
  let severity_counts := sort_index (value_counts df_tox_cleaned) in
  most_populated_class ← idxmax severity_counts;
  undersampling_loop df_tox_cleaned most_populated_class severity_counts [].
End Undersampling.

(** A sampler to run the loop with: the first [n] rows. *)
Definition first_rows (df : DataFrame) (n : nat) (seed : Z) : result DataFrame :=
  if (n <=? length df)%nat then Return (take n df) else Raise ValueError.

Lemma first_rows_too_many df n seed :
  (length df < n)%nat -> first_rows df n seed = Raise ValueError.
Proof.
  intros Hlt. unfold first_rows.
  destruct (Nat.leb_spec n (length df)); [lia | reflexivity].
Qed.

Lemma first_rows_draws df n seed :
  (n <= length df)%nat ->
  exists s, first_rows df n seed = Return s /\ length s = n /\ s ⊆+ df.
Proof.
  intros Hle. exists (take n df). unfold first_rows.
  destruct (Nat.leb_spec n (length df)); [|lia].
  split; [reflexivity|]. split.
  - rewrite length_take. lia.
  - apply sublist_submseteq, sublist_take.
Qed.

Global Instance first_rows_sampler : Sampler := {
  sample := first_rows;
  sample_too_many := first_rows_too_many;
  sample_draws := first_rows_draws
}.

(** A table to run the loop on: 41 rows of class 8, two of class 3 and one
    of class 5. *)
Definition tox_row (name : string) (c : Z) : nat * ToxRow :=
  (0%nat, {| Compound_Name := name; SMILES := "C"; Severity_Class := c |}).

Definition small_tox_table : DataFrame :=
  [tox_row "a" 3] ++ replicate 41 (tox_row "b" 8) ++ [tox_row "c" 5; tox_row "d" 3].

(** [severity_counts] with the count of one class set to [desired_size]. *)
Definition cut_count (most_populated_class : Z) (item : Z * nat) : Z * nat :=
  if item.1 =? most_populated_class then (item.1, desired_size) else item.

(** ** The best-alignment cell (two molecules, 25 conformers) *)

(** A Python float that may be [float('inf')]. *)
Inductive pyfloat : Type :=
  | Finite (q : Q)
  | Infinity.

(** [alignment_score < best_alignment_score] *)
Definition score_lt (alignment_score : Q) (best_alignment_score : pyfloat) : bool :=
  match best_alignment_score with
  | Infinity => true
  | Finite b => Qlt_bool alignment_score b
  end.

(** The [if] of the loop body. *)
Definition update_best (best_alignment_score : pyfloat) (alignment_score : Q) : pyfloat :=
  if score_lt alignment_score best_alignment_score then Finite alignment_score
  else best_alignment_score.

Section BestAlignment.
Context {Molecule O3A : Type} `{ShapeToolkit Molecule O3A}.

(** The loop of the cell: no [try], and [Align] is called twice, the
    second score being the one compared. *)
Fixpoint best_alignment_loop (mol2 mol1 : Molecule) (cids : list nat)
    (best_alignment_score : pyfloat) : result pyfloat :=
  match cids with
  | [] => Return best_alignment_score
  | cid :: rest =>
      o3a ← GetO3A mol2 mol1 cid;
      let '(_, mol2) := Align o3a mol2 in
      let '(alignment_score, mol2) := Align o3a mol2 in
      best_alignment_loop mol2 mol1 rest (update_best best_alignment_score alignment_score)
  end.

Definition best_alignment_cell (mol2 mol1 : Molecule) : result pyfloat :=
  best_alignment_loop mol2 mol1 (seq 0 (GetNumConformers mol2)) Infinity.

(** The scores the loop compares, conformer by conformer. *)
Fixpoint compared_scores (mol2 mol1 : Molecule) (cids : list nat) : result (list Q) :=
  match cids with
  | [] => Return []
  | cid :: rest =>
      o3a ← GetO3A mol2 mol1 cid;
      let '(_, mol2) := Align o3a mol2 in
      let '(alignment_score, mol2) := Align o3a mol2 in
      scores ← compared_scores mol2 mol1 rest;
      Return (alignment_score :: scores)
  end.
End BestAlignment.

(** ** The charge filter of the toxicity notebook, with its RDKit calls *)

(** [Chem.MolFromSmiles] may hand back Python's [None]; atoms carry a
    formal charge. *)
Class SmilesToolkit (Molecule Atom : Type) : Type := {
  MolFromSmiles : string -> option Molecule;
  GetAtoms : Molecule -> list Atom;
  GetFormalCharge : Atom -> Z
}.

(** How the cell ends: with the filtered frame, or with the
    [AttributeError] of calling [GetAtoms] on [None]. *)
Inductive charge_filter_outcome : Type :=
  | Filtered (df_tox_cleaned : DataFrame)
  | AttributeError.

Section ChargeFilter.
Context {Molecule Atom : Type} `{SmilesToolkit Molecule Atom}.

(** [lambda x: all(atom.GetFormalCharge() == 0
                   for atom in Chem.MolFromSmiles(x).GetAtoms())];
    [None] stands for the [AttributeError]. *)
Definition all_atoms_neutral (x : string) : option bool :=
  match MolFromSmiles x with
  | None => None
  | Some mol => Some (forallb (fun atom => GetFormalCharge atom =? 0) (GetAtoms mol))
  end.

(** [df['SMILES'].apply(...)]: row by row, up to the first exception. *)
Fixpoint apply_SMILES (f : string -> option bool) (df : DataFrame) : option (list bool) :=
  match df with
  | [] => Some []
  | r :: rest =>
      match f (SMILES r.2) with
      | None => None
      | Some b =>
          match apply_SMILES f rest with
          | None => None
          | Some mask => Some (b :: mask)
          end
      end
  end.

(** [df[mask]] for a boolean mask. *)
Definition select_rows (mask : list bool) (df : DataFrame) : DataFrame :=
  (List.filter fst (zip mask df)).*2.

Definition charge_filter_cell (df_tox_cleaned : DataFrame) : charge_filter_outcome :=
  match apply_SMILES all_atoms_neutral df_tox_cleaned with
  | None => AttributeError
  | Some mask => Filtered (reset_index (select_rows mask df_tox_cleaned))
  end.

(** The test [drop_charged] takes as given, read off the toolkit. *)
Definition neutral_smiles (x : string) : bool :=
  match all_atoms_neutral x with
  | Some b => b
  | None => false
  end.
End ChargeFilter.

(** ** The fingerprint table of the toxicity notebook and its merge *)

(** [AllChem.GetMACCSKeysFingerprint] *)
Class MACCSKeys (Molecule Fingerprint : Type) : Type := {
  GetMACCSKeysFingerprint : Molecule -> Fingerprint
}.

(** One record of [maccs_fingerprints_list]. *)
Record MaccsRow (Fingerprint : Type) : Type := {
  maccs_Compound_Name : string;
  maccs_smiles : string;
  maccs_fingerprint : Fingerprint
}.
Arguments maccs_Compound_Name {Fingerprint} _.
Arguments maccs_smiles {Fingerprint} _.
Arguments maccs_fingerprint {Fingerprint} _.

Section FingerprintTable.
Context {Molecule Atom Fingerprint : Type}
  `{SmilesToolkit Molecule Atom} `{MACCSKeys Molecule Fingerprint}.

(** The [for k, row in df_tox_cleaned.iterrows()] loop; [None] when a
    SMILES does not parse and the fingerprint call is handed [None]. *)
Fixpoint maccs_fingerprints_list (df_tox_cleaned : DataFrame)
    : option (list (MaccsRow Fingerprint)) :=
  match df_tox_cleaned with
  | [] => Some []
  | (k, row) :: rest =>
      match MolFromSmiles (SMILES row) with
      | None => None
      | Some mol =>
          let maccs_fingerprints := GetMACCSKeysFingerprint mol in
          match maccs_fingerprints_list rest with
          | None => None
          | Some records =>
              Some ({| maccs_Compound_Name := Compound_Name row;
                       maccs_smiles := SMILES row;
                       maccs_fingerprint := maccs_fingerprints |} :: records)
          end
      end
  end.

(** What the loop stores for a row. *)
Definition stored_for (r : nat * ToxRow) (m : MaccsRow Fingerprint) : Prop :=
  maccs_Compound_Name m = Compound_Name r.2 /\
  maccs_smiles m = SMILES r.2 /\
  exists mol, MolFromSmiles (SMILES r.2) = Some mol /\
              maccs_fingerprint m = GetMACCSKeysFingerprint mol.

(** The rows of [df_maccs] that [pd.merge(..., on='Compound Name')] joins
    to a row of the left frame. *)
Definition same_Compound_Name (row : ToxRow) (df_maccs : list (MaccsRow Fingerprint))
    : list (MaccsRow Fingerprint) :=
  List.filter (fun m => String.eqb (Compound_Name row) (maccs_Compound_Name m)) df_maccs.

(** [pd.merge(df_tox_cleaned, df_maccs, on='Compound Name')]: an inner
    join in the order of the left frame, one row for every pair of rows
    with the same name. *)
Definition merge_on_Compound_Name (df_tox_cleaned : DataFrame)
    (df_maccs : list (MaccsRow Fingerprint)) : list (ToxRow * MaccsRow Fingerprint) :=
  flat_map (fun r => map (fun m => (r.2, m)) (same_Compound_Name r.2 df_maccs))
           df_tox_cleaned.
End FingerprintTable.

(** A toolkit to run the table on: a SMILES is its own molecule unless it
    is empty, no atoms, and the fingerprint is its length. *)
Global Instance length_toolkit : SmilesToolkit string unit := {
  MolFromSmiles := fun x => if String.eqb x "" then None else Some x;
  GetAtoms := fun _ => [];
  GetFormalCharge := fun _ => 0
}.

Global Instance length_fingerprint : MACCSKeys string nat := {
  GetMACCSKeysFingerprint := String.length
}.

(** Two rows with the same name. *)
Definition repeated_name_table : DataFrame :=
  [tox_row "aspirin" 3; tox_row "ibuprofen" 5; tox_row "aspirin" 3].

(** *** Theorems on the rule-of-five cell *)

Lemma py_sum_bounds (l : list bool) : 0 <= py_sum l <= Z.of_nat (length l).
Proof.
  unfold py_sum.
  assert (G : forall a, a <= fold_left (fun acc (b : bool) => acc + (if b then 1 else 0)) l a
                        <= a + Z.of_nat (length l)).
  { induction l as [|b l IH]; intros a; simpl length; simpl fold_left; [lia|].
    specialize (IH (a + (if b then 1 else 0))). destruct b; lia. }
  specialize (G 0). lia.
Qed.

(** The flag is set exactly when all five conditions hold. *)
Lemma ro5_fulfilled_all_five {Molecule} `{Descriptors Molecule} (m : Molecule) :
  ro5_fulfilled (calculate_ro5_properties m) = true <-> ro5_satisfied m = 5.
Proof.
  unfold calculate_ro5_properties, ro5_satisfied, ro5_conditions. cbn [ro5_fulfilled].
  pose proof (py_sum_bounds
    [ Qle_bool (ExactMolWt m) 500; NumHAcceptors m <=? 10; NumHDonors m <=? 5;
      Qle_bool (MolLogP m) 5; Qlt_bool (TPSA m) 140 ]) as B.
  cbn [length] in B.
  rewrite Z.gtb_ltb, Z.ltb_lt. lia.
Qed.

(** C1 (the code departs from the claim): a molecule that satisfies four of
    the five rule-of-five conditions, failing only the weight limit, is
    reported with [ro5_fulfilled = false]; the cell's test is
    [sum(conditions) > 4]. *)
Theorem ro5_four_of_five_rejected :
  ro5_satisfied heavy_molecule = 4 /\
  ro5_fulfilled (calculate_ro5_properties heavy_molecule) = false.
Proof. split; vm_compute; reflexivity. Qed.

(** *** Theorems on the Tanimoto similarity *)

Lemma intersection_le_union (a b : BitVect) :
  (intersection_count a b <= union_count a b)%nat.
Proof.
  unfold intersection_count, union_count.
  revert b; induction a as [|x a IH]; intros [|y b]; simpl; try lia.
  specialize (IH b). destruct x, y; simpl; lia.
Qed.

Lemma intersection_count_comm (a b : BitVect) :
  intersection_count a b = intersection_count b a.
Proof.
  unfold intersection_count.
  revert b; induction a as [|x a IH]; intros [|y b]; simpl; try reflexivity.
  rewrite (IH b), (andb_comm x y). reflexivity.
Qed.

Lemma union_count_comm (a b : BitVect) : union_count a b = union_count b a.
Proof.
  unfold union_count.
  revert b; induction a as [|x a IH]; intros [|y b]; simpl; try reflexivity.
  rewrite (IH b), (orb_comm x y). reflexivity.
Qed.

Lemma intersection_eq_union_iff (a b : BitVect) :
  length a = length b ->
  intersection_count a b = union_count a b <-> a = b.
Proof.
  revert b; induction a as [|x a IH]; intros [|y b] Hlen; simpl in Hlen; try discriminate.
  - split; reflexivity.
  - injection Hlen as Hlen. specialize (IH b Hlen).
    pose proof (intersection_le_union a b) as Hle.
    unfold intersection_count, union_count in *. simpl.
    split.
    + intros Heq. destruct x, y; simpl in Heq; try lia;
        f_equal; apply IH; lia.
    + intros [= -> ->]. destruct IH as [_ IH]. rewrite (IH eq_refl).
      destruct y; reflexivity.
Qed.

Lemma TanimotoSimilarity_comm (a b : BitVect) :
  TanimotoSimilarity a b = TanimotoSimilarity b a.
Proof.
  unfold TanimotoSimilarity.
  rewrite (union_count_comm a b), (intersection_count_comm a b).
  destruct (decide (length a = length b)) as [Hlen|Hlen].
  - rewrite !bool_decide_eq_true_2 by congruence. reflexivity.
  - rewrite !bool_decide_eq_false_2 by congruence. reflexivity.
Qed.

(** Vectors of different lengths are refused. *)
Lemma TanimotoSimilarity_unequal_lengths (a b : BitVect) :
  length a <> length b -> TanimotoSimilarity a b = Raise ValueError.
Proof.
  intros Hlen. unfold TanimotoSimilarity.
  rewrite bool_decide_eq_false_2 by exact Hlen. reflexivity.
Qed.

(** Equal-length vectors with no bit set in either are the same vector. *)
Lemma union_count_0_eq (a b : BitVect) :
  length a = length b -> union_count a b = 0%nat -> a = b.
Proof.
  intros Hlen Hu. apply intersection_eq_union_iff; [exact Hlen|].
  pose proof (intersection_le_union a b). lia.
Qed.

(** C2: for equal-length bit vectors the Tanimoto similarity (and
    [FingerprintSimilarity], which scores with it) is the quotient
    |A∩B| / |A∪B|: it is that fraction wherever a bit is set, and in
    every case its product with |A∪B| is |A∩B|.  It lies in [0,1], is the
    same in either argument order, and is 1 exactly when A = B. *)
Theorem TanimotoSimilarity_properties (A B : BitVect) :
  length A = length B ->
  exists q : Q,
    TanimotoSimilarity A B = Return q /\
    FingerprintSimilarity A B = Return q /\
    (union_count A B <> 0%nat ->
     (q == inject_Z (Z.of_nat (intersection_count A B))
           / inject_Z (Z.of_nat (union_count A B)))%Q) /\
    (q * inject_Z (Z.of_nat (union_count A B))
       == inject_Z (Z.of_nat (intersection_count A B)))%Q /\
    (0 <= q <= 1)%Q /\
    TanimotoSimilarity B A = Return q /\
    ((q == 1)%Q <-> A = B).
Proof.
  intros Hlen.
  pose proof (intersection_le_union A B) as Hle.
  pose proof (intersection_eq_union_iff A B Hlen) as Hiff.
  destruct (union_count A B) as [|u] eqn:Hu.
  - assert (Hdef : TanimotoSimilarity A B = Return 1%Q).
    { unfold TanimotoSimilarity. rewrite bool_decide_eq_true_2 by exact Hlen.
      rewrite Hu. reflexivity. }
    assert (Hi : intersection_count A B = 0%nat) by lia.
    exists 1%Q. split; [exact Hdef|]. split; [exact Hdef|].
    split; [congruence|]. split; [rewrite Hi; reflexivity|].
    split; [split; discriminate|]. split; [rewrite <- TanimotoSimilarity_comm; exact Hdef|].
    split; [intros _; apply union_count_0_eq; assumption | reflexivity].
  - assert (Hdef : TanimotoSimilarity A B =
              Return (Z.of_nat (intersection_count A B) # Pos.of_nat (S u))).
    { unfold TanimotoSimilarity. rewrite bool_decide_eq_true_2 by exact Hlen.
      rewrite Hu. reflexivity. }
    assert (Hpos : Z.pos (Pos.of_nat (S u)) = Z.of_nat (S u)) by lia.
    revert Hdef Hpos. generalize (Pos.of_nat (S u)) as p. intros p Hdef Hpos.
    eexists. split; [exact Hdef|]. split; [exact Hdef|].
    split; [|split; [|split; [|split]]].
    + intros _. rewrite Qmake_Qdiv, Hpos. reflexivity.
    + unfold Qeq, Qmult, inject_Z; cbn [Qnum Qden].
      rewrite Pos.mul_1_r, Hpos. lia.
    + unfold Qle; cbn [Qnum Qden]. rewrite Hpos. lia.
    + rewrite <- TanimotoSimilarity_comm. exact Hdef.
    + unfold Qeq; cbn [Qnum Qden]. rewrite Hpos. rewrite <- Hiff. lia.
Qed.

Lemma TanimotoSimilarity_properties_witness :
  exists q : Q,
    TanimotoSimilarity [true; false; true] [true; true; false] = Return q /\
    FingerprintSimilarity [true; false; true] [true; true; false] = Return q /\
    (union_count [true; false; true] [true; true; false] <> 0%nat ->
     (q == inject_Z (Z.of_nat (intersection_count [true; false; true] [true; true; false]))
           / inject_Z (Z.of_nat (union_count [true; false; true] [true; true; false])))%Q) /\
    (q * inject_Z (Z.of_nat (union_count [true; false; true] [true; true; false]))
       == inject_Z (Z.of_nat (intersection_count [true; false; true] [true; true; false])))%Q /\
    (0 <= q <= 1)%Q /\
    TanimotoSimilarity [true; true; false] [true; false; true] = Return q /\
    ((q == 1)%Q <-> [true; false; true] = [true; true; false]).
Proof.
  apply (TanimotoSimilarity_properties [true; false; true] [true; true; false]).
  reflexivity.
Defined.

(** Two all-zero vectors, where the quotient is 0/0, score 1.0. *)
Lemma TanimotoSimilarity_no_bit_set :
  union_count [false; false] [false; false] = 0%nat /\
  TanimotoSimilarity [false; false] [false; false] = Return 1%Q.
Proof. split; reflexivity. Qed.

(** *** Theorems on sorting and the top-ten cells *)

Section StableSortFacts.
Context {A : Type} (leb : A -> A -> bool).
Hypothesis leb_total : forall x y, leb x y = true \/ leb y x = true.
Hypothesis leb_trans : forall x y z, leb x y = true -> leb y z = true -> leb x z = true.

Lemma leb_refl x : leb x x = true.
Proof. destruct (leb_total x x); assumption. Qed.

Lemma insert_by_Permutation x l : insert_by leb x l ≡ₚ x :: l.
Proof.
  induction l as [|y l IH]; simpl; [reflexivity|].
  destruct (leb x y); [reflexivity|].
  rewrite IH. apply Permutation_swap.
Qed.

Lemma stable_sort_Permutation l : stable_sort leb l ≡ₚ l.
Proof.
  induction l as [|x l IH]; simpl; [reflexivity|].
  rewrite insert_by_Permutation, IH. reflexivity.
Qed.

Lemma insert_by_StronglySorted x l :
  StronglySorted (fun a b => leb a b = true) l ->
  StronglySorted (fun a b => leb a b = true) (insert_by leb x l).
Proof.
  induction 1 as [|y l Hs IH Hall]; simpl.
  - repeat constructor.
  - destruct (leb x y) eqn:Hxy.
    + constructor; [constructor; assumption|].
      constructor; [assumption|].
      eapply Forall_impl; [exact Hall|]. intros z Hz. simpl in *. eauto.
    + constructor; [assumption|].
      rewrite insert_by_Permutation. constructor; [|assumption].
      destruct (leb_total x y); congruence.
Qed.

Lemma stable_sort_StronglySorted l :
  StronglySorted (fun a b => leb a b = true) (stable_sort leb l).
Proof.
  induction l as [|x l IH]; simpl; [constructor|].
  apply insert_by_StronglySorted, IH.
Qed.

Lemma insert_by_tied a x l :
  List.filter (tied leb a) (insert_by leb x l) = List.filter (tied leb a) (x :: l).
Proof.
  induction l as [|y l IH]; [reflexivity|].
  cbn [insert_by]. destruct (leb x y) eqn:Hxy; [reflexivity|].
  cbn [List.filter] in *. rewrite IH.
  destruct (tied leb a x) eqn:Hx, (tied leb a y) eqn:Hy; try reflexivity.
  unfold tied in Hx, Hy.
  apply andb_prop in Hx as [_ Hxa]. apply andb_prop in Hy as [Hay _].
  rewrite (leb_trans _ _ _ Hxa Hay) in Hxy. discriminate.
Qed.

Lemma stable_sort_tied a l :
  List.filter (tied leb a) (stable_sort leb l) = List.filter (tied leb a) l.
Proof.
  induction l as [|x l IH]; [reflexivity|].
  cbn [stable_sort]. rewrite insert_by_tied. cbn [List.filter]. rewrite IH. reflexivity.
Qed.

Lemma stable_sort_stably_sorted l : stably_sorted_of leb l (stable_sort leb l).
Proof.
  split; [apply stable_sort_Permutation|].
  split; [apply stable_sort_StronglySorted|].
  intros a. apply stable_sort_tied.
Qed.

(** Two ordered rearrangements that agree on every class of tied rows
    are the same list. *)
Lemma stably_sorted_agree l1 l2 :
  l1 ≡ₚ l2 ->
  StronglySorted (fun a b => leb a b = true) l1 ->
  StronglySorted (fun a b => leb a b = true) l2 ->
  (forall a, List.filter (tied leb a) l1 = List.filter (tied leb a) l2) ->
  l1 = l2.
Proof.
  revert l2; induction l1 as [|x t1 IH]; intros l2 Hp S1 S2 Hf.
  - apply Permutation_nil_l in Hp. congruence.
  - destruct l2 as [|y t2]; [apply Permutation_nil_r in Hp; discriminate|].
    apply StronglySorted_inv in S1 as [S1 F1].
    apply StronglySorted_inv in S2 as [S2 F2].
    assert (Hxy : leb x y = true).
    { assert (Hy : y ∈ x :: t1) by (rewrite Hp; left).
      apply elem_of_cons in Hy as [->|Hy]; [apply leb_refl|].
      rewrite Forall_forall in F1. auto. }
    assert (Hyx : leb y x = true).
    { assert (Hx : x ∈ y :: t2) by (rewrite <- Hp; left).
      apply elem_of_cons in Hx as [->|Hx]; [apply leb_refl|].
      rewrite Forall_forall in F2. auto. }
    assert (x = y) as <-.
    { specialize (Hf x). cbn [List.filter] in Hf.
      assert (Txx : tied leb x x = true) by (unfold tied; rewrite leb_refl; reflexivity).
      assert (Txy : tied leb x y = true) by (unfold tied; rewrite Hxy, Hyx; reflexivity).
      rewrite Txx, Txy in Hf. congruence. }
    f_equal. apply IH; try assumption.
    + eapply Permutation_cons_inv; exact Hp.
    + intros a. specialize (Hf a). cbn [List.filter] in Hf.
      destruct (tied leb a x); congruence.
Qed.

Lemma stably_sorted_of_unique l0 l :
  stably_sorted_of leb l0 l -> l = stable_sort leb l0.
Proof.
  intros (Hp & Hs & Hf).
  destruct (stable_sort_stably_sorted l0) as (Hp' & Hs' & Hf').
  apply stably_sorted_agree; try assumption.
  - rewrite Hp, Hp'. reflexivity.
  - intros a. rewrite Hf, Hf'. reflexivity.
Qed.

Lemma insert_behind_ties_Permutation x l : insert_behind_ties leb x l ≡ₚ x :: l.
Proof.
  induction l as [|y l IH]; simpl; [reflexivity|].
  destruct (leb y x); [|reflexivity].
  rewrite IH. apply Permutation_swap.
Qed.

Lemma reversing_sort_Permutation l : reversing_sort leb l ≡ₚ l.
Proof.
  induction l as [|x l IH]; simpl; [reflexivity|].
  rewrite insert_behind_ties_Permutation, IH. reflexivity.
Qed.

Lemma insert_behind_ties_StronglySorted x l :
  StronglySorted (fun a b => leb a b = true) l ->
  StronglySorted (fun a b => leb a b = true) (insert_behind_ties leb x l).
Proof.
  induction 1 as [|y l Hs IH Hall]; simpl.
  - repeat constructor.
  - destruct (leb y x) eqn:Hyx.
    + constructor; [assumption|].
      rewrite insert_behind_ties_Permutation. constructor; assumption.
    + assert (Hxy : leb x y = true) by (destruct (leb_total x y); congruence).
      constructor; [constructor; assumption|].
      constructor; [assumption|].
      eapply Forall_impl; [exact Hall|]. intros z Hz. simpl in *. eauto.
Qed.

Lemma reversing_sort_StronglySorted l :
  StronglySorted (fun a b => leb a b = true) (reversing_sort leb l).
Proof.
  induction l as [|x l IH]; simpl; [constructor|].
  apply insert_behind_ties_StronglySorted, IH.
Qed.

Lemma filter_none (f : A -> bool) l :
  Forall (fun y => f y = false) l -> List.filter f l = [].
Proof.
  induction 1 as [|y l Hy _ IH]; simpl; [reflexivity|]. rewrite Hy. exact IH.
Qed.

Lemma filter_Permutation_proper (f : A -> bool) l1 l2 :
  l1 ≡ₚ l2 -> List.filter f l1 ≡ₚ List.filter f l2.
Proof.
  induction 1 as [|x l1 l2 _ IH|x y l|l1 l2 l3 _ IH1 _ IH2]; simpl.
  - reflexivity.
  - destruct (f x); [constructor|]; exact IH.
  - destruct (f x), (f y); try reflexivity. apply Permutation_swap.
  - etransitivity; eassumption.
Qed.

(** In a frame without ties, at most one row is tied with a given one. *)
Lemma tie_free_filter a l :
  tie_free leb l -> (length (List.filter (tied leb a) l) <= 1)%nat.
Proof.
  induction 1 as [|x l Hall _ IH]; simpl; [lia|].
  destruct (tied leb a x) eqn:Hax; [|exact IH].
  rewrite filter_none; [simpl; lia|].
  eapply Forall_impl; [exact Hall|]. intros y Hxy. simpl in Hxy.
  destruct (tied leb a y) eqn:Hay; [|reflexivity].
  unfold tied in *.
  apply andb_prop in Hax as [Hax Hxa]. apply andb_prop in Hay as [Hay Hya].
  rewrite (leb_trans _ _ _ Hxa Hay), (leb_trans _ _ _ Hya Hax) in Hxy. discriminate.
Qed.

(** Without ties there is one way to put the rows in order: any ordered
    rearrangement is the stable sort. *)
Lemma sorted_tie_free_stably_sorted l0 l :
  tie_free leb l0 -> l ≡ₚ l0 ->
  StronglySorted (fun a b => leb a b = true) l ->
  stably_sorted_of leb l0 l.
Proof.
  intros Hfree Hp Hs. split; [exact Hp|]. split; [exact Hs|].
  intros a.
  pose proof (tie_free_filter a l0 Hfree) as Hlen.
  pose proof (filter_Permutation_proper (tied leb a) l l0 Hp) as Hpf.
  destruct (List.filter (tied leb a) l0) as [|x [|y t]]; simpl in Hlen; [| |lia].
  - apply Permutation_nil_r in Hpf. exact Hpf.
  - apply Permutation_singleton_r in Hpf. exact Hpf.
Qed.
End StableSortFacts.

Lemma StronglySorted_weaken {A} (R S : A -> A -> Prop) (l : list A) :
  (forall x y, R x y -> S x y) -> StronglySorted R l -> StronglySorted S l.
Proof.
  intros HRS. induction 1 as [|x l Hs IH Hall]; constructor; [assumption|].
  eapply Forall_impl; [exact Hall|]. intros y Hy; simpl in *. auto.
Qed.

Lemma score_leb_total ascending (a b : option Q) :
  score_leb ascending a b = true \/ score_leb ascending b a = true.
Proof.
  destruct a as [x|], b as [y|]; simpl; auto.
  destruct (Qlt_le_dec x y) as [Hlt|Hle].
  - apply Qlt_le_weak in Hlt. destruct ascending; [left|right]; apply Qle_bool_iff; exact Hlt.
  - destruct ascending; [right|left]; apply Qle_bool_iff; exact Hle.
Qed.

Lemma score_leb_trans ascending (a b c : option Q) :
  score_leb ascending a b = true -> score_leb ascending b c = true ->
  score_leb ascending a c = true.
Proof.
  destruct a as [x|], b as [y|], c as [z|]; simpl; try congruence.
  destruct ascending; rewrite !Qle_bool_iff; intros H1 H2.
  - eapply Qle_trans; eassumption.
  - eapply Qle_trans; eassumption.
Qed.

Lemma row_leb_total {Row} (by_ : Row -> option Q) ascending (r1 r2 : Row) :
  row_leb by_ ascending r1 r2 = true \/ row_leb by_ ascending r2 r1 = true.
Proof. apply score_leb_total. Qed.

Lemma row_leb_trans {Row} (by_ : Row -> option Q) ascending (r1 r2 r3 : Row) :
  row_leb by_ ascending r1 r2 = true -> row_leb by_ ascending r2 r3 = true ->
  row_leb by_ ascending r1 r3 = true.
Proof. apply score_leb_trans. Qed.

(** [sort_values(..., kind='stable')]: the stable sort is one routine
    within the contract of [sort_values]. *)
Definition stable_kind : SortValues := {|
  sort_values := fun Row by_ ascending df => stable_sort (row_leb by_ ascending) df;
  sort_values_Permutation := fun Row by_ ascending df =>
    stable_sort_Permutation (row_leb by_ ascending) df;
  sort_values_StronglySorted := fun Row by_ ascending df =>
    stable_sort_StronglySorted (row_leb by_ ascending)
      (row_leb_total by_ ascending) (row_leb_trans by_ ascending) df
|}.

(** A routine within the same contract that is not stable: it hands back
    rows with tied scores in the reverse of their order in the frame. *)
Definition reversing_kind : SortValues := {|
  sort_values := fun Row by_ ascending df => reversing_sort (row_leb by_ ascending) df;
  sort_values_Permutation := fun Row by_ ascending df =>
    reversing_sort_Permutation (row_leb by_ ascending) df;
  sort_values_StronglySorted := fun Row by_ ascending df =>
    reversing_sort_StronglySorted (row_leb by_ ascending)
      (row_leb_total by_ ascending) (row_leb_trans by_ ascending) df
|}.

(** Whatever routine sorts, on a frame without tied scores the result is
    the stable sort of the frame, and nothing else is one. *)
Lemma sort_values_tie_free `{SortValues} {Row} (by_ : Row -> option Q) ascending
    (df : list Row) :
  tie_free (row_leb by_ ascending) df ->
  stably_sorted_of (row_leb by_ ascending) df (sort_values by_ ascending df) /\
  forall l, stably_sorted_of (row_leb by_ ascending) df l -> l = sort_values by_ ascending df.
Proof.
  intros Hfree.
  assert (Hs : stably_sorted_of (row_leb by_ ascending) df (sort_values by_ ascending df)).
  { apply sorted_tie_free_stably_sorted;
      [apply row_leb_trans | exact Hfree | apply sort_values_Permutation
      | apply sort_values_StronglySorted]. }
  split; [exact Hs|]. intros l Hl.
  rewrite (stably_sorted_of_unique _ (row_leb_total by_ ascending)
             (row_leb_trans by_ ascending) df l Hl).
  rewrite (stably_sorted_of_unique _ (row_leb_total by_ ascending)
             (row_leb_trans by_ ascending) df _ Hs).
  reflexivity.
Qed.

(** C6, as the cells have it: the Tanimoto cell puts the dataset in
    descending order of [MACCS_ts], the shape cell in ascending order of
    [ShapeSimilarity] (missing scores last), and each shows the first ten
    rows of that ordered rearrangement of the dataset.  Which of several
    rows with tied scores comes first is the sorting routine's choice.  On
    a dataset without tied scores the order is the stable sort's, and the
    output is the first ten rows of the stably sorted dataset, whichever
    way that is described. *)
Theorem top_hits_first_ten_of_sorted `{SortValues} (dataset : list Candidate) :
  (let sorted := sort_values (fun r => Some (MACCS_ts r)) false dataset in
   sorted ≡ₚ dataset /\
   StronglySorted (fun r1 r2 => (MACCS_ts r2 <= MACCS_ts r1)%Q) sorted /\
   top_hits_MACCS dataset = take 10 sorted /\
   length (top_hits_MACCS dataset) = (10 `min` length dataset)%nat /\
   (tie_free (row_leb (fun r => Some (MACCS_ts r)) false) dataset ->
    stably_sorted_of (row_leb (fun r => Some (MACCS_ts r)) false) dataset sorted /\
    forall l, stably_sorted_of (row_leb (fun r => Some (MACCS_ts r)) false) dataset l ->
              top_hits_MACCS dataset = take 10 l)) /\
  (let sorted := sort_values ShapeSimilarity true dataset in
   sorted ≡ₚ dataset /\
   StronglySorted (fun r1 r2 =>
       forall y, ShapeSimilarity r2 = Some y ->
       exists x, ShapeSimilarity r1 = Some x /\ (x <= y)%Q) sorted /\
   top_hits_Shape dataset = take 10 sorted /\
   length (top_hits_Shape dataset) = (10 `min` length dataset)%nat /\
   (tie_free (row_leb ShapeSimilarity true) dataset ->
    stably_sorted_of (row_leb ShapeSimilarity true) dataset sorted /\
    forall l, stably_sorted_of (row_leb ShapeSimilarity true) dataset l ->
              top_hits_Shape dataset = take 10 l)).
Proof.
  split; cbv zeta.
  - split; [apply sort_values_Permutation|]. split; [|split; [reflexivity|split]].
    + eapply StronglySorted_weaken; [|apply sort_values_StronglySorted].
      intros r1 r2. unfold row_leb; simpl. apply Qle_bool_iff.
    + unfold top_hits_MACCS. rewrite length_take.
      rewrite (Permutation_length (sort_values_Permutation _ _ _)). reflexivity.
    + intros Hfree.
      destruct (sort_values_tie_free (fun r => Some (MACCS_ts r)) false dataset Hfree)
        as [Hs Hu].
      split; [exact Hs|].
      intros l Hl. unfold top_hits_MACCS. rewrite (Hu l Hl). reflexivity.
  - split; [apply sort_values_Permutation|]. split; [|split; [reflexivity|split]].
    + eapply StronglySorted_weaken; [|apply sort_values_StronglySorted].
      intros r1 r2. unfold row_leb.
      destruct (ShapeSimilarity r1) as [x|], (ShapeSimilarity r2) as [y|]; simpl;
        intros Hle z Hz; try discriminate.
      injection Hz as <-. exists x. split; [reflexivity|]. apply Qle_bool_iff, Hle.
    + unfold top_hits_Shape. rewrite length_take.
      rewrite (Permutation_length (sort_values_Permutation _ _ _)). reflexivity.
    + intros Hfree.
      destruct (sort_values_tie_free ShapeSimilarity true dataset Hfree) as [Hs Hu].
      split; [exact Hs|].
      intros l Hl. unfold top_hits_Shape. rewrite (Hu l Hl). reflexivity.
Qed.

(** C6 as the spec words it fails on a dataset with tied scores: a sorting
    routine may hand back the tied rows in another order than the
    dataset's, and then the Tanimoto cell's output is sorted but is not
    the first rows of the stably sorted dataset. *)
Lemma top_hits_MACCS_not_stable :
  chembl_id <$> @top_hits_MACCS reversing_kind tied_frame
    = ["CHEMBL3"; "CHEMBL2"; "CHEMBL1"; "CHEMBL0"] /\
  chembl_id <$> take 10 (stable_sort (row_leb (fun r => Some (MACCS_ts r)) false) tied_frame)
    = ["CHEMBL2"; "CHEMBL3"; "CHEMBL0"; "CHEMBL1"] /\
  StronglySorted (fun r1 r2 => (MACCS_ts r2 <= MACCS_ts r1)%Q)
    (@top_hits_MACCS reversing_kind tied_frame) /\
  ~ stably_sorted_of (row_leb (fun r => Some (MACCS_ts r)) false) tied_frame
      (@sort_values reversing_kind _ (fun r => Some (MACCS_ts r)) false tied_frame).
Proof.
  split; [reflexivity|]. split; [reflexivity|]. split.
  - pose proof (@sort_values_StronglySorted reversing_kind _
                  (fun r => Some (MACCS_ts r)) false tied_frame) as Hs.
    eapply StronglySorted_weaken; [|exact Hs].
    intros r1 r2. unfold row_leb; simpl. apply Qle_bool_iff.
  - intros (_ & _ & Hf).
    specialize (Hf {| chembl_id := "CHEMBL2"; smiles := "CCC"; MACCS_ts := 9 # 10;
                      Morgan_ts := 1 # 2; ShapeSimilarity := None |}).
    vm_compute in Hf. discriminate.
Qed.

(** Without ties every sorting routine agrees: of a weaker and a stronger
    hit the Tanimoto cell shows the stronger first. *)
Lemma top_hits_MACCS_without_ties `{SortValues} :
  chembl_id <$> top_hits_MACCS (take 1 tied_frame ++ drop 3 tied_frame)
    = ["CHEMBL3"; "CHEMBL0"].
Proof.
  assert (Hfree : tie_free (row_leb (fun r => Some (MACCS_ts r)) false)
                    (take 1 tied_frame ++ drop 3 tied_frame)).
  { repeat constructor. }
  destruct (sort_values_tie_free _ _ _ Hfree) as [Hs _].
  apply stably_sorted_of_unique in Hs; [|apply row_leb_total|apply row_leb_trans].
  unfold top_hits_MACCS. rewrite Hs. reflexivity.
Qed.

(** *** Theorems on the conformer loop and the shape-screening pass *)

Lemma fold_left_Qmin_spec (rest : list Q) (s : Q) :
  In (fold_left Qmin rest s) (s :: rest) /\
  Forall (fun x => (fold_left Qmin rest s <= x)%Q) (s :: rest).
Proof.
  revert s; induction rest as [|y rest IH]; intros s; simpl fold_left.
  - split; [left; reflexivity|]. constructor; [apply Qle_refl | constructor].
  - destruct (IH (Qmin s y)) as [Hin Hall]. split.
    + destruct Hin as [Heq|Hin]; [|right; right; exact Hin].
      rewrite <- Heq. unfold Qmin, GenericMinMax.gmin.
      destruct (s ?= y)%Q; [left | left | right; left]; reflexivity.
    + apply Forall_cons in Hall as [Hhd Htl].
      constructor; [|constructor; [|exact Htl]].
      * eapply Qle_trans; [exact Hhd | apply Q.le_min_l].
      * eapply Qle_trans; [exact Hhd | apply Q.le_min_r].
Qed.

Lemma np_min_spec (scores : list Q) :
  scores <> [] ->
  exists m, np_min scores = Return m /\ In m scores /\
            Forall (fun x => (m <= x)%Q) scores.
Proof.
  destruct scores as [|s rest]; [congruence|]. intros _.
  exists (fold_left Qmin rest s). split; [reflexivity|]. apply fold_left_Qmin_spec.
Qed.

Lemma progress_apply_app {A B} (f : A -> result B) (l1 l2 : list A) :
  progress_apply f (l1 ++ l2) =
  (xs ← progress_apply f l1; ys ← progress_apply f l2; Return (xs ++ ys)).
Proof.
  induction l1 as [|x l1 IH]; simpl.
  - destruct (progress_apply f l2); reflexivity.
  - destruct (f x) as [y|e]; simpl; [|reflexivity].
    rewrite IH. destruct (progress_apply f l1) as [xs|e]; simpl; [|reflexivity].
    destruct (progress_apply f l2); reflexivity.
Qed.

Section ShapeFacts.
Context {Molecule O3A : Type} `{ShapeToolkit Molecule O3A}.
Variables mol query : Molecule.

(** Every construction from conformer [i] on succeeds: the loop runs to
    its end and has collected each conformer's score. *)
Lemma conformer_loop_completes (m i : nat) (scores : list Q) :
  (forall c, (i <= c < i + m)%nat -> exists o3a, construct mol query c = Return o3a) ->
  conformer_loop (probe_before mol query i) query (seq i m) scores =
  Return (Completed (scores ++ map (score_of mol query) (seq i m))).
Proof.
  revert i scores; induction m as [|m IH]; intros i scores Hall; simpl.
  - rewrite app_nil_r. reflexivity.
  - destruct (Hall i ltac:(lia)) as [o3a Ho].
    pose proof Ho as Ho'. unfold construct in Ho'. rewrite Ho'.
    destruct (Align o3a (probe_before mol query i)) as [s mol'] eqn:HA.
    assert (Hs : score_of mol query i = s).
    { unfold score_of. rewrite Ho, HA. reflexivity. }
    assert (Hm : probe_before mol query (S i) = mol').
    { simpl. rewrite Ho', HA. reflexivity. }
    rewrite <- Hm, IH.
    + rewrite Hs, <- app_assoc. reflexivity.
    + intros c Hc. apply Hall. lia.
Qed.

(** The first construction to raise is that of conformer [cid]: a
    [ValueError] ends the loop with [return None], anything else leaves
    the function. *)
Lemma conformer_loop_stops (m i cid : nat) (e : exception) (scores : list Q) :
  (i <= cid < i + m)%nat ->
  construct mol query cid = Raise e ->
  (forall c, (i <= c < cid)%nat -> exists o3a, construct mol query c = Return o3a) ->
  conformer_loop (probe_before mol query i) query (seq i m) scores =
  match e with ValueError => Return ReturnedNone | _ => Raise e end.
Proof.
  revert i scores; induction m as [|m IH]; intros i scores Hr He Hall; [lia|].
  simpl. destruct (decide (i = cid)) as [->|Hne].
  - unfold construct in He. rewrite He. destruct e; reflexivity.
  - destruct (Hall i ltac:(lia)) as [o3a Ho].
    pose proof Ho as Ho'. unfold construct in Ho'. rewrite Ho'.
    destruct (Align o3a (probe_before mol query i)) as [s mol'] eqn:HA.
    assert (Hm : probe_before mol query (S i) = mol').
    { simpl. rewrite Ho', HA. reflexivity. }
    rewrite <- Hm. apply IH; [lia | exact He |].
    intros c Hc. apply Hall. lia.
Qed.

(** Either every one of the first [n] constructions succeeds, or there
    is a first one that raises. *)
Lemma constructions_cases (n : nat) :
  (forall c, (c < n)%nat -> exists o3a, construct mol query c = Return o3a) \/
  (exists cid e, (cid < n)%nat /\ fails_at mol query cid e).
Proof.
  induction n as [|n [IH|(cid & e & Hlt & Hf)]].
  - left. intros c Hc. lia.
  - destruct (construct mol query n) as [o3a|e] eqn:Hn.
    + left. intros c Hc. destruct (decide (c = n)) as [->|]; [eauto|]. apply IH. lia.
    + right. exists n, e. split; [lia|]. split; [exact Hn|]. exact IH.
  - right. exists cid, e. split; [lia | exact Hf].
Qed.

Lemma fails_at_unique (c1 c2 : nat) (e1 e2 : exception) :
  fails_at mol query c1 e1 -> fails_at mol query c2 e2 -> c1 = c2 /\ e1 = e2.
Proof.
  intros [H1 A1] [H2 A2].
  destruct (lt_eq_lt_dec c1 c2) as [[Hlt| ->]|Hlt].
  - destruct (A2 c1 Hlt) as [o Ho]. congruence.
  - split; congruence.
  - destruct (A1 c2 Hlt) as [o Ho]. congruence.
Qed.
End ShapeFacts.

Section AlignFacts.
Context {Molecule O3A : Type} `{ShapeToolkit Molecule O3A}.
Variables (mol query : Molecule) (num_conformers : nat).

Let molH := prepare mol num_conformers.
Let n := GetNumConformers molH.

Lemma align_first_failure (cid : nat) (e : exception) :
  (cid < n)%nat -> fails_at molH query cid e ->
  embed_optimize_align_molecule mol query num_conformers =
  match e with ValueError => Return None | _ => Raise e end.
Proof.
  intros Hlt [He Hall]. unfold embed_optimize_align_molecule.
  fold molH. fold n.
  change molH with (probe_before molH query 0) at 1.
  rewrite (conformer_loop_stops molH query n 0 cid e []); [| lia | exact He |].
  - destruct e; reflexivity.
  - intros c Hc. apply Hall. lia.
Qed.

Lemma align_all_constructed :
  (1 <= n)%nat ->
  (forall cid, (cid < n)%nat -> exists o3a, construct molH query cid = Return o3a) ->
  exists m,
    embed_optimize_align_molecule mol query num_conformers = Return (Some m) /\
    (exists cid, (cid < n)%nat /\ m = score_of molH query cid) /\
    (forall cid, (cid < n)%nat -> (m <= score_of molH query cid)%Q).
Proof.
  intros Hn Hall. unfold embed_optimize_align_molecule.
  fold molH. fold n.
  change molH with (probe_before molH query 0) at 1.
  rewrite (conformer_loop_completes molH query n 0 []); [|intros c Hc; apply Hall; lia].
  rewrite app_nil_l.
  destruct (np_min_spec (map (score_of molH query) (seq 0 n))) as (m & Hm & Hin & Hle).
  { destruct n; [lia | discriminate]. }
  exists m. split; [|split].
  - simpl. rewrite Hm. reflexivity.
  - apply in_map_iff in Hin as (cid & <- & Hc). apply in_seq in Hc.
    exists cid. split; [lia | reflexivity].
  - intros cid Hc. rewrite Forall_forall in Hle. apply Hle.
    apply list_elem_of_In, in_map, in_seq. lia.
Qed.

Lemma align_returns_None_iff :
  embed_optimize_align_molecule mol query num_conformers = Return None <->
  exists cid, (cid < n)%nat /\ fails_at molH query cid ValueError.
Proof.
  split.
  - intros Hret.
    destruct (constructions_cases molH query n) as [Hall|(cid & e & Hlt & Hf)].
    + destruct (Nat.eq_dec n 0%nat) as [Hz|Hnz].
      * unfold embed_optimize_align_molecule in Hret. fold molH in Hret. fold n in Hret.
        rewrite Hz in Hret. simpl in Hret. discriminate.
      * destruct (align_all_constructed ltac:(lia) Hall) as (m & Hm & _).
        congruence.
    + rewrite (align_first_failure cid e Hlt Hf) in Hret.
      exists cid. split; [exact Hlt|]. destruct e; try discriminate. exact Hf.
  - intros (cid & Hlt & Hf). apply (align_first_failure cid ValueError Hlt Hf).
Qed.
End AlignFacts.

(** With no conformer there is no score to take the minimum of: [np.min]
    of the empty list raises [ValueError], outside the [try] block. *)
Lemma align_no_conformers {Molecule O3A} `{ShapeToolkit Molecule O3A}
    (mol query : Molecule) (num_conformers : nat) :
  GetNumConformers (prepare mol num_conformers) = 0%nat ->
  embed_optimize_align_molecule mol query num_conformers = Raise ValueError.
Proof.
  intros Hz. unfold embed_optimize_align_molecule. rewrite Hz. reflexivity.
Qed.

(** C9: with at least one conformer generated, the function returns [None]
    exactly when the loop comes to a conformer whose [GetO3A] raises
    [ValueError]; when every conformer's alignment is constructed it
    returns the least of the per-conformer alignment scores of the
    hydrogen-added, embedded and optimised molecule.  In particular, if
    [GetO3A] raises nothing but [ValueError], the function returns [None]
    when it raises for some conformer and that minimum otherwise. *)
Theorem embed_optimize_align_molecule_result {Molecule O3A} `{ShapeToolkit Molecule O3A}
    (mol query : Molecule) (num_conformers : nat) :
  let molH := prepare mol num_conformers in
  let n := GetNumConformers molH in
  let is_min_score (m : Q) :=
    (exists cid, (cid < n)%nat /\ m = score_of molH query cid) /\
    (forall cid, (cid < n)%nat -> (m <= score_of molH query cid)%Q) in
  (1 <= n)%nat ->
  (embed_optimize_align_molecule mol query num_conformers = Return None <->
     exists cid, (cid < n)%nat /\ fails_at molH query cid ValueError) /\
  ((forall cid, (cid < n)%nat -> exists o3a, construct molH query cid = Return o3a) ->
     exists m, embed_optimize_align_molecule mol query num_conformers = Return (Some m) /\
               is_min_score m) /\
  ((forall cid e, (cid < n)%nat -> construct molH query cid = Raise e -> e = ValueError) ->
     (embed_optimize_align_molecule mol query num_conformers = Return None <->
        exists cid, (cid < n)%nat /\ construct molH query cid = Raise ValueError) /\
     ((~ exists cid, (cid < n)%nat /\ construct molH query cid = Raise ValueError) ->
        exists m, embed_optimize_align_molecule mol query num_conformers = Return (Some m) /\
                  is_min_score m)).
Proof.
  intros molH n is_min_score Hn.
  pose proof (align_returns_None_iff mol query num_conformers) as Hiff.
  pose proof (align_all_constructed mol query num_conformers Hn) as Hmin.
  fold molH in Hiff, Hmin. fold n in Hiff, Hmin.
  split; [exact Hiff|]. split; [exact Hmin|].
  intros Honly. split.
  - rewrite Hiff. split.
    + intros (cid & Hlt & He & _). eauto.
    + intros (cid & Hlt & He).
      destruct (constructions_cases molH query n) as [Hall|(c & e & Hc & Hf)].
      * destruct (Hall cid Hlt) as [o Ho]. congruence.
      * exists c. split; [exact Hc|].
        destruct Hf as [Hce Hbefore].
        rewrite (Honly c e Hc Hce) in Hce. split; assumption.
  - intros Hno. apply Hmin. intros cid Hlt.
    destruct (construct molH query cid) as [o|e] eqn:Hc; [eauto|].
    exfalso. apply Hno. exists cid. split; [exact Hlt|].
    rewrite <- (Honly cid e Hlt Hc). exact Hc.
Qed.

Lemma embed_optimize_align_molecule_result_witness :
  exists m,
    embed_optimize_align_molecule [Some (3 # 2); Some (1 # 2)] ([] : list (option Q)) 2
      = Return (Some m) /\
    (exists cid, (cid < 2)%nat /\
       m = score_of (prepare [Some (3 # 2); Some (1 # 2)] 2) ([] : list (option Q)) cid) /\
    (forall cid, (cid < 2)%nat ->
       (m <= score_of (prepare [Some (3 # 2); Some (1 # 2)] 2) ([] : list (option Q)) cid)%Q).
Proof.
  refine (proj1 (proj2 (embed_optimize_align_molecule_result
                          [Some (3 # 2); Some (1 # 2)] ([] : list (option Q)) 2 _)) _).
  - vm_compute. lia.
  - intros [|[|cid]] Hc; [eexists; reflexivity | eexists; reflexivity |].
    vm_compute in Hc. lia.
Defined.

(** C3: in the shape-screening pass, a candidate for which the loop comes
    to a conformer whose alignment cannot be constructed ([GetO3A] raises
    [ValueError]) gets the result [None], and the pass goes on: its
    outcome is that of the records before and after the candidate, with
    [None] in the candidate's place. *)
Theorem shape_screen_skips_failed_alignment {Molecule O3A} `{ShapeToolkit Molecule O3A}
    (query_h : Molecule) (before after : list Molecule) (candidate : Molecule) (cid : nat) :
  (cid < GetNumConformers (prepare candidate 2))%nat ->
  fails_at (prepare candidate 2) query_h cid ValueError ->
  embed_optimize_align_molecule candidate query_h 2 = Return None /\
  shape_screen query_h (before ++ candidate :: after) =
    (xs ← shape_screen query_h before;
     ys ← shape_screen query_h after;
     Return (xs ++ None :: ys)) /\
  (forall xs ys,
     shape_screen query_h before = Return xs ->
     shape_screen query_h after = Return ys ->
     shape_screen query_h (before ++ candidate :: after) = Return (xs ++ None :: ys)).
Proof.
  intros Hlt Hf.
  assert (Hnone : embed_optimize_align_molecule candidate query_h 2 = Return None).
  { apply (align_first_failure candidate query_h 2 cid ValueError Hlt Hf). }
  assert (Heq : shape_screen query_h (before ++ candidate :: after) =
    (xs ← shape_screen query_h before;
     ys ← shape_screen query_h after;
     Return (xs ++ None :: ys))).
  { unfold shape_screen. rewrite progress_apply_app. simpl. rewrite Hnone. simpl.
    destruct (progress_apply _ before) as [xs|e]; simpl; [|reflexivity].
    destruct (progress_apply _ after) as [ys|e]; reflexivity. }
  split; [exact Hnone|]. split; [exact Heq|].
  intros xs ys Hb Ha. rewrite Heq, Hb, Ha. reflexivity.
Qed.

Lemma shape_screen_skips_failed_alignment_witness :
  embed_optimize_align_molecule [Some 1%Q; None] ([] : list (option Q)) 2 = Return None /\
  shape_screen ([] : list (option Q)) ([[Some (3 # 2)]] ++ [Some 1%Q; None] :: [[Some (1 # 3)]]) =
    (xs ← shape_screen ([] : list (option Q)) [[Some (3 # 2)]];
     ys ← shape_screen ([] : list (option Q)) [[Some (1 # 3)]];
     Return (xs ++ None :: ys)) /\
  (forall xs ys,
     shape_screen ([] : list (option Q)) [[Some (3 # 2)]] = Return xs ->
     shape_screen ([] : list (option Q)) [[Some (1 # 3)]] = Return ys ->
     shape_screen ([] : list (option Q)) ([[Some (3 # 2)]] ++ [Some 1%Q; None] :: [[Some (1 # 3)]])
       = Return (xs ++ None :: ys)).
Proof.
  apply (shape_screen_skips_failed_alignment
           ([] : list (option Q)) [[Some (3 # 2)]] [[Some (1 # 3)]] [Some 1%Q; None] 1).
  - vm_compute. lia.
  - split; [reflexivity|].
    intros c Hc. assert (c = 0%nat) as -> by lia. exists 1%Q. reflexivity.
Defined.

(** *** Theorems on the PubChem lookup cells *)










(** *** Theorems on the undersampling loop *)

Lemma index_reset_index (df : DataFrame) : index (reset_index df) = seq 0 (length df).
Proof.
  unfold index, reset_index. apply fst_zip.
  rewrite length_seq, length_fmap. reflexivity.
Qed.

Lemma NoDup_index_reset_index (df : DataFrame) : NoDup (index (reset_index df)).
Proof. rewrite index_reset_index. apply NoDup_seq. Qed.

Lemma where_class_elem (df : DataFrame) (c : Z) (r : nat * ToxRow) :
  r ∈ where_class df c <-> r ∈ df /\ Severity_Class r.2 = c.
Proof.
  unfold where_class. rewrite !list_elem_of_In, filter_In, Z.eqb_eq. reflexivity.
Qed.

Lemma where_class_nil (df : DataFrame) (c : Z) :
  (forall r, r ∈ df -> Severity_Class r.2 <> c) -> where_class df c = [].
Proof.
  intros Hno. induction df as [|x df IH]; [reflexivity|].
  unfold where_class in *. simpl.
  destruct (Z.eqb_spec (Severity_Class x.2) c) as [Heq|Hne].
  - exfalso. apply (Hno x); [left | exact Heq].
  - apply IH. intros r Hr. apply Hno. right. exact Hr.
Qed.

Lemma where_class_all (df : DataFrame) (c : Z) :
  (forall r, r ∈ df -> Severity_Class r.2 = c) -> where_class df c = df.
Proof.
  intros Hall. induction df as [|x df IH]; [reflexivity|].
  unfold where_class in *. simpl.
  rewrite (proj2 (Z.eqb_eq _ _) (Hall x ltac:(left))).
  f_equal. apply IH. intros r Hr. apply Hall. right. exact Hr.
Qed.

Lemma where_class_app (df1 df2 : DataFrame) (c : Z) :
  where_class (df1 ++ df2) c = where_class df1 c ++ where_class df2 c.
Proof. unfold where_class. apply List.filter_app. Qed.

(** With distinct labels, a label selects the one row that carries it. *)
Lemma label_selects_row (df : DataFrame) (r : nat * ToxRow) :
  NoDup (index df) -> r ∈ df ->
  List.filter (fun x => (x.1 =? r.1)%nat) df = [r].
Proof.
  unfold index. induction df as [|x df IH]; intros Hnd Hr.
  - apply elem_of_nil in Hr. contradiction.
  - rewrite fmap_cons in Hnd. apply NoDup_cons in Hnd as [Hx Hnd].
    simpl. apply elem_of_cons in Hr as [->|Hr].
    + rewrite Nat.eqb_refl. f_equal.
      clear IH Hnd. induction df as [|y df IH]; [reflexivity|].
      simpl. rewrite fmap_cons, not_elem_of_cons in Hx. destruct Hx as [Hne Hx].
      destruct (Nat.eqb_spec y.1 x.1) as [Heq|_]; [congruence|]. apply IH, Hx.
    + destruct (Nat.eqb_spec x.1 r.1) as [Heq|_].
      * exfalso. apply Hx. rewrite Heq. apply list_elem_of_fmap. exists r. auto.
      * apply IH; assumption.
Qed.

Lemma loc_rows (df rows : DataFrame) :
  NoDup (index df) -> (forall r, r ∈ rows -> r ∈ df) ->
  loc df (index rows) = Return rows.
Proof.
  intros Hnd. induction rows as [|r rows IH]; intros Hsub; [reflexivity|].
  simpl. rewrite (label_selects_row df r Hnd (Hsub r ltac:(left))).
  rewrite IH; [reflexivity|]. intros x Hx. apply Hsub. right. exact Hx.
Qed.

(** The classes counted are the classes that occur, each once. *)
Lemma severity_counts_keys (df : DataFrame) :
  (sort_index (value_counts df)).*1 ≡ₚ remove_dups (map (fun r => Severity_Class r.2) df).
Proof.
  unfold sort_index, value_counts.
  rewrite !stable_sort_Permutation.
  rewrite <- list_fmap_compose.
  induction (remove_dups _) as [|c l IH]; [reflexivity|].
  simpl. rewrite IH. reflexivity.
Qed.

Section UndersamplingFacts.
Context `{Sampler}.
Variables (df : DataFrame) (mp : Z) (s : DataFrame).
Hypothesis df_labels : NoDup (index df).
Hypothesis sampled : sample (where_class df mp) desired_size 42 = Return s.
Hypothesis sampled_sub : s ⊆+ where_class df mp.

Local Abbreviation block := (block df mp s).

Lemma block_rows (c : Z) (r : nat * ToxRow) :
  r ∈ block c -> r ∈ df /\ Severity_Class r.2 = c.
Proof.
  unfold block. destruct (Z.eqb_spec c mp) as [->|Hne]; intros Hr.
  - apply where_class_elem. eapply elem_of_submseteq; eassumption.
  - apply where_class_elem. exact Hr.
Qed.

Lemma undersampling_loop_blocks (items : list (Z * nat)) (acc : DataFrame) :
  undersampling_loop df mp items acc =
  Return (acc ++ flat_map (fun item => block item.1) items).
Proof.
  revert acc; induction items as [|[c count] items IH]; intros acc; simpl.
  - rewrite app_nil_r. reflexivity.
  - assert (Hloc : loc df (index (block c)) = Return (block c)).
    { apply loc_rows; [exact df_labels|]. intros r Hr. apply (block_rows c r Hr). }
    unfold block in Hloc |- * at 1. destruct (Z.eqb_spec c mp) as [->|Hne]; simpl.
    + rewrite sampled. simpl. rewrite Hloc. simpl. rewrite IH, <- app_assoc. reflexivity.
    + rewrite Hloc. simpl. rewrite IH, <- app_assoc. reflexivity.
Qed.

Lemma where_class_blocks_absent (keys : list (Z * nat)) (c : Z) :
  c ∉ keys.*1 ->
  where_class (flat_map (fun item => block item.1) keys) c = [].
Proof.
  intros Hc. apply where_class_nil. intros r Hr Heq.
  apply list_elem_of_In, in_flat_map in Hr as (item & Hitem & Hr).
  apply list_elem_of_In, block_rows in Hr as [_ Hr].
  apply Hc. apply list_elem_of_fmap. exists item. split; [rewrite <- Heq; exact Hr|].
  apply list_elem_of_In. exact Hitem.
Qed.

Lemma where_class_blocks_present (keys : list (Z * nat)) (c : Z) :
  NoDup keys.*1 -> c ∈ keys.*1 ->
  where_class (flat_map (fun item => block item.1) keys) c = block c.
Proof.
  induction keys as [|[k count] keys IH]; intros Hnd Hc.
  - apply elem_of_nil in Hc. contradiction.
  - rewrite fmap_cons in Hnd, Hc. apply NoDup_cons in Hnd as [Hk Hnd].
    cbn [flat_map fst]. rewrite where_class_app.
    destruct (decide (k = c)) as [->|Hne].
    + rewrite where_class_blocks_absent by exact Hk.
      rewrite app_nil_r. apply where_class_all.
      intros r Hr. apply (block_rows c r Hr).
    + rewrite where_class_nil.
      * apply IH; [exact Hnd|]. apply elem_of_cons in Hc as [Hc|Hc]; [simpl in Hc; congruence | exact Hc].
      * intros r Hr Heq. apply block_rows in Hr as [_ Hr]. simpl in *.
        congruence.
Qed.
End UndersamplingFacts.

(** C10: when the most populated class has at least [desired_size] (40)
    rows, the undersampling loop ends with a balanced frame in which every
    other severity class has exactly its rows of the cleaned frame, in
    their order; the most populated class has exactly 40 rows, drawn
    without repetition from its rows in the cleaned frame; and every row is
    a row of the cleaned frame. *)
Theorem undersample_balanced `{Sampler} (neutral : string -> bool)
    (df_tox : DataFrame) (most_populated_class : Z) :
  let df_tox_cleaned := drop_charged neutral df_tox in
  idxmax (sort_index (value_counts df_tox_cleaned)) = Return most_populated_class ->
  (desired_size <= length (where_class df_tox_cleaned most_populated_class))%nat ->
  exists balanced_df,
    undersample df_tox_cleaned = Return balanced_df /\
    (forall c, c <> most_populated_class ->
       where_class balanced_df c = where_class df_tox_cleaned c) /\
    length (where_class balanced_df most_populated_class) = desired_size /\
    where_class balanced_df most_populated_class
      ⊆+ where_class df_tox_cleaned most_populated_class /\
    (forall r, r ∈ balanced_df -> r ∈ df_tox_cleaned).
Proof.
  intros df Hmax Hsize.
  assert (Hnd : NoDup (index df)) by apply NoDup_index_reset_index.
  destruct (sample_draws (where_class df most_populated_class) desired_size 42 Hsize)
    as (s & Hs & Hlen & Hsub).
  set (keys := sort_index (value_counts df)).
  assert (Hkeys : keys.*1 ≡ₚ remove_dups (map (fun r => Severity_Class r.2) df))
    by apply severity_counts_keys.
  assert (Hkeys_nd : NoDup keys.*1).
  { rewrite Hkeys. apply NoDup_remove_dups. }
  assert (Hkeys_in : forall c, c ∈ keys.*1 <-> exists r, r ∈ df /\ Severity_Class r.2 = c).
  { intros c. rewrite Hkeys, elem_of_remove_dups, list_elem_of_In, in_map_iff.
    split; intros (r & H1 & H2).
    - exists r. split; [apply list_elem_of_In; exact H2 | exact H1].
    - exists r. split; [exact H2 | apply list_elem_of_In; exact H1]. }
  exists (flat_map (fun item => block df most_populated_class s item.1) keys).
  split; [|split; [|split; [|split]]].
  - unfold undersample. cbv zeta. rewrite Hmax. simpl.
    rewrite (undersampling_loop_blocks df most_populated_class s Hnd Hs Hsub).
    reflexivity.
  - intros c Hc. destruct (decide (c ∈ keys.*1)) as [Hin|Hout].
    + rewrite (where_class_blocks_present df most_populated_class s Hsub keys c Hkeys_nd Hin).
      unfold block. destruct (Z.eqb_spec c most_populated_class); [contradiction | reflexivity].
    + rewrite (where_class_blocks_absent df most_populated_class s Hsub keys c Hout).
      symmetry. apply where_class_nil. intros r Hr Heq.
      apply Hout, Hkeys_in. eauto.
  - assert (Hin : most_populated_class ∈ keys.*1).
    { apply Hkeys_in.
      destruct (where_class df most_populated_class) as [|r rows] eqn:Hrows.
      - unfold desired_size in Hsize. simpl in Hsize. lia.
      - exists r. apply where_class_elem. rewrite Hrows. left. }
    rewrite (where_class_blocks_present df most_populated_class s Hsub keys _ Hkeys_nd Hin).
    unfold block. rewrite Z.eqb_refl. exact Hlen.
  - assert (Hin : most_populated_class ∈ keys.*1).
    { apply Hkeys_in.
      destruct (where_class df most_populated_class) as [|r rows] eqn:Hrows.
      - unfold desired_size in Hsize. simpl in Hsize. lia.
      - exists r. apply where_class_elem. rewrite Hrows. left. }
    rewrite (where_class_blocks_present df most_populated_class s Hsub keys _ Hkeys_nd Hin).
    unfold block. rewrite Z.eqb_refl. exact Hsub.
  - intros r Hr. apply list_elem_of_In, in_flat_map in Hr as (item & _ & Hr).
    apply list_elem_of_In in Hr.
    apply (block_rows df most_populated_class s Hsub item.1 r Hr).
Qed.

Lemma undersample_balanced_witness :
  exists balanced_df,
    undersample (drop_charged (fun _ => true) small_tox_table) = Return balanced_df /\
    (forall c, c <> 8 ->
       where_class balanced_df c
       = where_class (drop_charged (fun _ => true) small_tox_table) c) /\
    length (where_class balanced_df 8) = desired_size /\
    where_class balanced_df 8
      ⊆+ where_class (drop_charged (fun _ => true) small_tox_table) 8 /\
    (forall r, r ∈ balanced_df -> r ∈ drop_charged (fun _ => true) small_tox_table).
Proof.
  apply (undersample_balanced (fun _ => true) small_tox_table 8).
  - vm_compute. reflexivity.
  - vm_compute. lia.
Defined.

(** * Further properties of the notebooks' code *)

(** *** The alignment function and the screening pass: what aborts them *)

(** X1: a candidate for which no conformer was generated makes the function
    raise [ValueError] (the minimum of an empty score list), and the
    screening pass stops there: once the records before it are done, the
    pass raises [ValueError] whatever the records after it are. *)
Theorem shape_screen_aborts_without_conformers {Molecule O3A} `{ShapeToolkit Molecule O3A}
    (query_h : Molecule) (before after : list Molecule) (candidate : Molecule) :
  GetNumConformers (prepare candidate 2) = 0%nat ->
  embed_optimize_align_molecule candidate query_h 2 = Raise ValueError /\
  shape_screen query_h (before ++ candidate :: after) =
    (xs ← shape_screen query_h before; Raise ValueError) /\
  (forall xs, shape_screen query_h before = Return xs ->
     shape_screen query_h (before ++ candidate :: after) = Raise ValueError).
Proof.
  intros Hz.
  pose proof (align_no_conformers candidate query_h 2 Hz) as Hraise.
  assert (Heq : shape_screen query_h (before ++ candidate :: after) =
                (xs ← shape_screen query_h before; Raise ValueError)).
  { unfold shape_screen. rewrite progress_apply_app. simpl. rewrite Hraise. simpl.
    destruct (progress_apply _ before); reflexivity. }
  split; [exact Hraise|]. split; [exact Heq|].
  intros xs Hxs. rewrite Heq, Hxs. reflexivity.
Qed.

Lemma shape_screen_aborts_without_conformers_witness :
  embed_optimize_align_molecule ([] : list (option Q)) [] 2 = Raise ValueError /\
  shape_screen ([] : list (option Q)) ([[Some 1%Q]] ++ [] :: [[Some (1 # 3)]]) =
    (xs ← shape_screen ([] : list (option Q)) [[Some 1%Q]]; Raise ValueError) /\
  (forall xs, shape_screen ([] : list (option Q)) [[Some 1%Q]] = Return xs ->
     shape_screen ([] : list (option Q)) ([[Some 1%Q]] ++ [] :: [[Some (1 # 3)]])
       = Raise ValueError).
Proof.
  apply (shape_screen_aborts_without_conformers
           ([] : list (option Q)) [[Some 1%Q]] [[Some (1 # 3)]] []).
  reflexivity.
Defined.

(** X2: the function raises [e] in exactly two situations: no conformer
    was generated and [e] is [ValueError]; or the first construction that
    raises, raises an exception [e] other than [ValueError].  The handler
    swallows nothing but the [ValueError] of [GetO3A]. *)
Theorem embed_optimize_align_molecule_raises {Molecule O3A} `{ShapeToolkit Molecule O3A}
    (mol query : Molecule) (num_conformers : nat) (e : exception) :
  let molH := prepare mol num_conformers in
  let n := GetNumConformers molH in
  embed_optimize_align_molecule mol query num_conformers = Raise e <->
  (n = 0%nat /\ e = ValueError) \/
  (exists cid, (cid < n)%nat /\ fails_at molH query cid e /\ e <> ValueError).
Proof.
  intros molH n. split.
  - intros Hraise.
    destruct (constructions_cases molH query n) as [Hall|(cid & e' & Hlt & Hf)].
    + destruct (Nat.eq_dec n 0%nat) as [Hz|Hnz].
      * left. split; [exact Hz|].
        rewrite (align_no_conformers mol query num_conformers Hz) in Hraise. congruence.
      * assert (Hn1 : (1 <= n)%nat) by lia.
        destruct (align_all_constructed mol query num_conformers Hn1 Hall)
          as (m & Hm & _). congruence.
    + right. rewrite (align_first_failure mol query num_conformers cid e' Hlt Hf) in Hraise.
      exists cid. destruct e'; try discriminate;
        injection Hraise as <-; (split; [exact Hlt|]); (split; [exact Hf|]); discriminate.
  - intros [[Hz ->]|(cid & Hlt & Hf & Hne)].
    + apply align_no_conformers. exact Hz.
    + rewrite (align_first_failure mol query num_conformers cid e Hlt Hf).
      destruct e; try reflexivity. contradiction.
Qed.

Lemma progress_apply_Return {A B} (f : A -> result B) (l : list A) (rs : list B) :
  progress_apply f l = Return rs <-> Forall2 (fun x r => f x = Return r) l rs.
Proof.
  revert rs; induction l as [|x l IH]; intros rs; simpl.
  - split.
    + intros [= <-]. constructor.
    + intros Hf. apply Forall2_nil_inv_l in Hf. subst. reflexivity.
  - destruct (f x) as [y|e] eqn:Hx; simpl.
    + destruct (progress_apply f l) as [ys|e] eqn:Hl; simpl.
      * split.
        -- intros [= <-]. constructor; [exact Hx|]. apply IH. reflexivity.
        -- intros Hf. apply Forall2_cons_inv_l in Hf as (r & rs' & Hr & Hrs & ->).
           apply IH in Hrs. congruence.
      * split; [discriminate|].
        intros Hf. apply Forall2_cons_inv_l in Hf as (r & rs' & Hr & Hrs & ->).
        apply IH in Hrs. discriminate.
    + split; [discriminate|].
      intros Hf. apply Forall2_cons_inv_l in Hf as (r & rs' & Hr & Hrs & ->). congruence.
Qed.

Lemma progress_apply_Raise {A B} (f : A -> result B) (l : list A) (e : exception) :
  progress_apply f l = Raise e <->
  exists done x rest, l = done ++ x :: rest /\
    Forall (fun y => exists r, f y = Return r) done /\ f x = Raise e.
Proof.
  induction l as [|x l IH]; simpl.
  - split; [discriminate|]. intros (done & y & rest & Hl & _). destruct done; discriminate.
  - destruct (f x) as [y|e'] eqn:Hx; simpl.
    + destruct (progress_apply f l) as [ys|e'] eqn:Hl; simpl.
      * split; [discriminate|].
        intros ([|d done] & z & rest & Heq & Hd & Hz); simpl in Heq; injection Heq as -> ->.
        -- congruence.
        -- apply Forall_cons in Hd as [_ Hd].
           assert (Hr : @Return (list B) ys = Raise e)
             by (apply IH; exists done, z, rest; auto).
           discriminate.
      * split.
        -- intros [= ->]. destruct (proj1 IH eq_refl) as (done & z & rest & -> & Hd & Hz).
           exists (x :: done), z, rest. split; [reflexivity|]. split; [|exact Hz].
           constructor; [eauto | exact Hd].
        -- intros ([|d done] & z & rest & Heq & Hd & Hz); simpl in Heq; injection Heq as -> ->.
           ++ congruence.
           ++ apply Forall_cons in Hd as [_ Hd]. f_equal.
              assert (Hr : @Raise (list B) e' = Raise e)
                by (apply IH; exists done, z, rest; auto).
              congruence.
    + split.
      * intros [= ->]. exists [], x, l. split; [reflexivity|]. split; [constructor | exact Hx].
      * intros ([|d done] & z & rest & Heq & Hd & Hz); simpl in Heq; injection Heq as -> ->.
        -- congruence.
        -- apply Forall_cons in Hd as [[r Hr] _]. congruence.
Qed.

(** X3: the screening pass is all or nothing.  It returns a column exactly
    when the function returns for every candidate, and then the column has
    one entry per candidate, in order, each the function's result for that
    candidate; it raises [e] exactly when the first candidate on which the
    function raises, raises [e], and the results computed before are
    lost. *)
Theorem shape_screen_all_or_nothing {Molecule O3A} `{ShapeToolkit Molecule O3A}
    (query_h : Molecule) (rdkitmol : list Molecule) :
  (forall column,
     shape_screen query_h rdkitmol = Return column <->
     Forall2 (fun x r => embed_optimize_align_molecule x query_h 2 = Return r)
             rdkitmol column) /\
  (forall column,
     shape_screen query_h rdkitmol = Return column -> length column = length rdkitmol) /\
  (forall e,
     shape_screen query_h rdkitmol = Raise e <->
     exists done x rest, rdkitmol = done ++ x :: rest /\
       Forall (fun y => exists r, embed_optimize_align_molecule y query_h 2 = Return r) done /\
       embed_optimize_align_molecule x query_h 2 = Raise e).
Proof.
  unfold shape_screen. split; [|split].
  - intros column. apply progress_apply_Return.
  - intros column Hc. apply progress_apply_Return in Hc.
    symmetry. eapply Forall2_length. exact Hc.
  - intros e. apply progress_apply_Raise.
Qed.

(** *** The best-alignment cell *)

Lemma update_best_le (best : Q) (scores : list Q) :
  exists m, fold_left update_best scores (Finite best) = Finite m /\
            In m (best :: scores) /\ Forall (fun s => (m <= s)%Q) (best :: scores).
Proof.
  revert best; induction scores as [|s scores IH]; intros best; simpl fold_left.
  - exists best. split; [reflexivity|]. split; [left; reflexivity|].
    constructor; [apply Qle_refl | constructor].
  - unfold update_best at 2. simpl score_lt. unfold Qlt_bool.
    destruct (Qle_bool best s) eqn:Hle; simpl.
    + destruct (IH best) as (m & Hm & Hin & Hall).
      exists m. split; [exact Hm|].
      apply Forall_cons in Hall as [Hb Hall]. split.
      * destruct Hin as [Hin|Hin]; [left; exact Hin | right; right; exact Hin].
      * constructor; [exact Hb|]. constructor; [|exact Hall].
        eapply Qle_trans; [exact Hb|]. apply Qle_bool_iff. exact Hle.
    + destruct (IH s) as (m & Hm & Hin & Hall).
      exists m. split; [exact Hm|].
      apply Forall_cons in Hall as [Hs Hall]. split.
      * right. exact Hin.
      * constructor; [|constructor; [exact Hs | exact Hall]].
        eapply Qle_trans; [exact Hs|].
        apply Qlt_le_weak, Qnot_le_lt. intros Hc.
        apply Qle_bool_iff in Hc. congruence.
Qed.

Lemma best_alignment_loop_scores {Molecule O3A} `{ShapeToolkit Molecule O3A}
    (mol2 mol1 : Molecule) (cids : list nat) (best : pyfloat) :
  best_alignment_loop mol2 mol1 cids best =
  (scores ← compared_scores mol2 mol1 cids; Return (fold_left update_best scores best)).
Proof.
  revert mol2 best; induction cids as [|cid cids IH]; intros mol2 best; simpl; [reflexivity|].
  destruct (GetO3A mol2 mol1 cid) as [o3a|e]; simpl; [|reflexivity].
  destruct (Align o3a mol2) as [s1 m1]. destruct (Align o3a m1) as [s2 m2].
  rewrite IH. destruct (compared_scores m2 mol1 cids); reflexivity.
Qed.

Lemma compared_scores_length {Molecule O3A} `{ShapeToolkit Molecule O3A}
    (mol2 mol1 : Molecule) (cids : list nat) (scores : list Q) :
  compared_scores mol2 mol1 cids = Return scores -> length scores = length cids.
Proof.
  revert mol2 scores; induction cids as [|cid cids IH]; intros mol2 scores; simpl.
  - intros [= <-]. reflexivity.
  - destruct (GetO3A mol2 mol1 cid) as [o3a|e]; simpl; [|discriminate].
    destruct (Align o3a mol2) as [s1 m1]. destruct (Align o3a m1) as [s2 m2].
    destruct (compared_scores m2 mol1 cids) as [rest|e] eqn:Hr; simpl; [|discriminate].
    intros [= <-]. simpl. f_equal. eapply IH. exact Hr.
Qed.

(** X4: the best-alignment cell has no handler and starts from infinity.
    With no conformer it reports [inf]; when every alignment is
    constructed it reports the least of the scores it compared (those of
    the second [Align] call), one per conformer; and any exception from
    [GetO3A], [ValueError] included, leaves the cell. *)
Theorem best_alignment_cell_result {Molecule O3A} `{ShapeToolkit Molecule O3A}
    (mol2 mol1 : Molecule) :
  let n := GetNumConformers mol2 in
  (n = 0%nat -> best_alignment_cell mol2 mol1 = Return Infinity) /\
  (forall scores,
     compared_scores mol2 mol1 (seq 0 n) = Return scores ->
     length scores = n /\
     ((1 <= n)%nat ->
      exists m, best_alignment_cell mol2 mol1 = Return (Finite m) /\
                In m scores /\ Forall (fun s => (m <= s)%Q) scores)) /\
  (forall e,
     compared_scores mol2 mol1 (seq 0 n) = Raise e ->
     best_alignment_cell mol2 mol1 = Raise e) /\
  (forall e,
     (1 <= n)%nat -> GetO3A mol2 mol1 0 = Raise e ->
     best_alignment_cell mol2 mol1 = Raise e).
Proof.
  intros n. unfold best_alignment_cell. fold n.
  split; [|split; [|split]].
  - intros ->. reflexivity.
  - intros scores Hs. pose proof (compared_scores_length _ _ _ _ Hs) as Hlen.
    rewrite length_seq in Hlen. split; [exact Hlen|].
    intros Hn. rewrite best_alignment_loop_scores, Hs. simpl.
    destruct scores as [|s scores]; [simpl in Hlen; lia|].
    simpl fold_left. unfold update_best at 2. simpl score_lt. cbv iota.
    destruct (update_best_le s scores) as (m & Hm & Hin & Hall).
    exists m. split; [rewrite Hm; reflexivity|]. split; assumption.
  - intros e He. rewrite best_alignment_loop_scores, He. reflexivity.
  - intros e Hn He. destruct n as [|n']; [lia|].
    simpl. rewrite He. reflexivity.
Qed.

(** *** The rule-of-five cell: lower descriptors never hurt *)

Lemma py_sum_cons (b : bool) (l : list bool) :
  py_sum (b :: l) = (if b then 1 else 0) + py_sum l.
Proof.
  unfold py_sum. simpl.
  assert (G : forall a, fold_left (fun acc (b : bool) => acc + (if b then 1 else 0)) l a
                        = a + fold_left (fun acc (b : bool) => acc + (if b then 1 else 0)) l 0).
  { induction l as [|c l IH]; intros a; simpl; [lia|].
    rewrite (IH (a + _)), (IH (0 + _)). lia. }
  rewrite G. lia.
Qed.

Lemma py_sum_mono (l l' : list bool) :
  Forall2 (fun b b' => b = true -> b' = true) l l' -> py_sum l <= py_sum l'.
Proof.
  induction 1 as [|b b' l l' Hb _ IH]; [reflexivity|].
  rewrite !py_sum_cons. destruct b, b'; try lia.
  all: specialize (Hb eq_refl); discriminate.
Qed.

(** X5: the rule-of-five test is monotone.  A molecule whose five
    descriptors are each no larger than those of another satisfies at
    least as many conditions; so if the other is reported as fulfilling
    the rule, it is too. *)
Theorem ro5_fulfilled_monotone {Molecule} `{Descriptors Molecule} (m m' : Molecule) :
  (ExactMolWt m' <= ExactMolWt m)%Q ->
  NumHAcceptors m' <= NumHAcceptors m ->
  NumHDonors m' <= NumHDonors m ->
  (MolLogP m' <= MolLogP m)%Q ->
  (TPSA m' <= TPSA m)%Q ->
  ro5_satisfied m <= ro5_satisfied m' /\
  (ro5_fulfilled (calculate_ro5_properties m) = true ->
   ro5_fulfilled (calculate_ro5_properties m') = true).
Proof.
  intros Hw Ha Hd Hl Ht.
  assert (Hmono : ro5_satisfied m <= ro5_satisfied m').
  { unfold ro5_satisfied, ro5_conditions. apply py_sum_mono.
    repeat constructor.
    - rewrite !Qle_bool_iff. intros Hm. eapply Qle_trans; eassumption.
    - rewrite !Z.leb_le. lia.
    - rewrite !Z.leb_le. lia.
    - rewrite !Qle_bool_iff. intros Hm. eapply Qle_trans; eassumption.
    - unfold Qlt_bool. rewrite !negb_true_iff. intros Hm.
      destruct (Qle_bool 140 (TPSA m')) eqn:Hc; [|reflexivity].
      apply Qle_bool_iff in Hc.
      assert (Hc' : Qle_bool 140 (TPSA m) = true)
        by (apply Qle_bool_iff; eapply Qle_trans; eassumption).
      congruence. }
  split; [exact Hmono|].
  unfold calculate_ro5_properties. cbn [ro5_fulfilled].
  change ((py_sum (ro5_conditions m) >? 4) = true ->
          (py_sum (ro5_conditions m') >? 4) = true).
  unfold ro5_satisfied in Hmono. rewrite !Z.gtb_ltb, !Z.ltb_lt. lia.
Qed.

(** Within every threshold. *)
Lemma ro5_fulfilled_monotone_witness :
  ro5_satisfied {| dm_weight := 500; dm_hba := 10; dm_hbd := 5; dm_logp := 5; dm_tpsa := 139 |}
    <= ro5_satisfied {| dm_weight := 180; dm_hba := 4; dm_hbd := 1; dm_logp := 1; dm_tpsa := 60 |} /\
  (ro5_fulfilled (calculate_ro5_properties
     {| dm_weight := 500; dm_hba := 10; dm_hbd := 5; dm_logp := 5; dm_tpsa := 139 |}) = true ->
   ro5_fulfilled (calculate_ro5_properties
     {| dm_weight := 180; dm_hba := 4; dm_hbd := 1; dm_logp := 1; dm_tpsa := 60 |}) = true).
Proof.
  apply (ro5_fulfilled_monotone
    {| dm_weight := 500; dm_hba := 10; dm_hbd := 5; dm_logp := 5; dm_tpsa := 139 |}
    {| dm_weight := 180; dm_hba := 4; dm_hbd := 1; dm_logp := 1; dm_tpsa := 60 |});
    vm_compute; discriminate.
Defined.

(** *** The PubChem lookup cells: every way they end *)

(** X6: the CID lookup succeeds only on a JSON object whose
    "IdentifierList" is an object whose "CID" is a non-empty list (its
    first entry is the result) or a non-empty string (its first character
    is).  An unreachable server raises [ConnectionError], a body that
    [r.json()] cannot decode raises that failure's class, a missing "CID"
    raises [KeyError], an empty list raises [IndexError]. *)
Theorem cid_by_name_outcomes (server : Server) (name : string) (log : list string) :
  (forall v,
     (cid_by_name server name log).1 = Return v <->
     exists d ids, server log (cids_url name) = Responded (PDict d) /\
       d !! "IdentifierList" = Some (PDict ids) /\
       ((exists rest, ids !! "CID" = Some (PList (v :: rest))) \/
        (exists c s, ids !! "CID" = Some (PStr (String c s)) /\
                     v = PStr (String c EmptyString)))) /\
  (server log (cids_url name) = Unreachable ->
     (cid_by_name server name log).1 = Raise ConnectionError) /\
  (forall why, server log (cids_url name) = Undecodable why ->
     (cid_by_name server name log).1 = Raise (json_failure_class why)) /\
  (forall d ids, server log (cids_url name) = Responded (PDict d) ->
     d !! "IdentifierList" = Some (PDict ids) -> ids !! "CID" = None ->
     (cid_by_name server name log).1 = Raise KeyError) /\
  (forall d ids, server log (cids_url name) = Responded (PDict d) ->
     d !! "IdentifierList" = Some (PDict ids) -> ids !! "CID" = Some (PList []) ->
     (cid_by_name server name log).1 = Raise IndexError).
Proof.
  unfold cid_by_name, requests_get. cbn [fst].
  split; [|split; [|split; [|split]]].
  - intros v. split.
    + intros Hret.
      destruct (server log (cids_url name)) as [response| |why]; [|discriminate|discriminate].
      simpl in Hret. destruct response; simpl in Hret; try discriminate.
      * destruct (is_substring _ _); discriminate.
      * destruct (existsb _ _); discriminate.
      * destruct (d !! "IdentifierList") as [il|] eqn:Hil; simpl in Hret; [|discriminate].
        destruct il; simpl in Hret; try discriminate.
        destruct (d0 !! "CID") as [cids|] eqn:Hcid; simpl in Hret; [|discriminate].
        exists d, d0. split; [reflexivity|]. split; [exact Hil|].
        destruct cids; simpl in Hret; try discriminate.
        -- right. destruct s as [|c s]; simpl in Hret; [discriminate|].
           injection Hret as <-. eauto.
        -- left. destruct l as [|x l]; simpl in Hret; [discriminate|].
           injection Hret as <-. eauto.
    + intros (d & ids & -> & Hil & [(rest & Hcid)|(c & s & Hcid & ->)]);
        simpl; rewrite Hil; simpl; rewrite Hcid; reflexivity.
  - intros ->. reflexivity.
  - intros why ->. reflexivity.
  - intros d ids -> Hil Hcid. simpl. rewrite Hil. simpl. rewrite Hcid. reflexivity.
  - intros d ids -> Hil Hcid. simpl. rewrite Hil. simpl. rewrite Hcid. reflexivity.
Qed.

(** X7: the molecular-weight lookup succeeds only on a JSON object whose
    "PropertyTable" is an object whose "Properties" is a list that starts
    with an object holding "MolecularWeight", and returns that value.  An
    unreachable server raises [ConnectionError], an empty "Properties"
    list raises [IndexError], a first entry without "MolecularWeight"
    raises [KeyError]. *)
Theorem molecular_weight_by_cid_outcomes (server : Server) (cid : string) (log : list string) :
  (forall w,
     (molecular_weight_by_cid server cid log).1 = Return w <->
     exists d table first rest,
       server log (molecular_weight_url cid) = Responded (PDict d) /\
       d !! "PropertyTable" = Some (PDict table) /\
       table !! "Properties" = Some (PList (PDict first :: rest)) /\
       first !! "MolecularWeight" = Some w) /\
  (server log (molecular_weight_url cid) = Unreachable ->
     (molecular_weight_by_cid server cid log).1 = Raise ConnectionError) /\
  (forall d table, server log (molecular_weight_url cid) = Responded (PDict d) ->
     d !! "PropertyTable" = Some (PDict table) ->
     table !! "Properties" = Some (PList []) ->
     (molecular_weight_by_cid server cid log).1 = Raise IndexError) /\
  (forall d table first rest,
     server log (molecular_weight_url cid) = Responded (PDict d) ->
     d !! "PropertyTable" = Some (PDict table) ->
     table !! "Properties" = Some (PList (PDict first :: rest)) ->
     first !! "MolecularWeight" = None ->
     (molecular_weight_by_cid server cid log).1 = Raise KeyError).
Proof.
  unfold molecular_weight_by_cid, requests_get. cbn [fst].
  split; [|split; [|split]].
  - intros w. split.
    + intros Hret.
      destruct (server log (molecular_weight_url cid)) as [response| |why];
        [|discriminate|discriminate].
      simpl in Hret. destruct response; simpl in Hret; try discriminate.
      * destruct (is_substring _ _); discriminate.
      * destruct (existsb _ _); discriminate.
      * destruct (d !! "PropertyTable") as [pt|] eqn:Hpt; simpl in Hret; [|discriminate].
        destruct pt; simpl in Hret; try discriminate.
        destruct (d0 !! "Properties") as [props|] eqn:Hprops; simpl in Hret; [|discriminate].
        destruct props; simpl in Hret; try discriminate.
        -- destruct s; discriminate.
        -- destruct l as [|x l]; simpl in Hret; [discriminate|].
           destruct x; simpl in Hret; try discriminate.
           destruct (d1 !! "MolecularWeight") as [mw|] eqn:Hmw; [|discriminate].
           injection Hret as <-. exists d, d0, d1, l. auto.
    + intros (d & table & first & rest & -> & Hpt & Hprops & Hmw).
      simpl. rewrite Hpt. simpl. rewrite Hprops. simpl. rewrite Hmw. reflexivity.
  - intros ->. reflexivity.
  - intros d table -> Hpt Hprops. simpl. rewrite Hpt. simpl. rewrite Hprops. reflexivity.
  - intros d table first rest -> Hpt Hprops Hmw.
    simpl. rewrite Hpt. simpl. rewrite Hprops. simpl. rewrite Hmw. reflexivity.
Qed.

(** *** The undersampling loop: when it fails, which class it cuts, what it leaves *)

Lemma idxmax_from_in (best : Z * nat) (counts : list (Z * nat)) :
  idxmax_from best counts ∈ (best :: counts).*1.
Proof.
  revert best; induction counts as [|item rest IH]; intros best; simpl.
  - left.
  - destruct (best.2 <? item.2)%nat.
    + right. apply IH.
    + specialize (IH best). rewrite fmap_cons in IH.
      apply elem_of_cons in IH as [->|IH]; [left | right; right; exact IH].
Qed.

Lemma idxmax_in (counts : list (Z * nat)) (mp : Z) :
  idxmax counts = Return mp -> mp ∈ counts.*1.
Proof.
  destruct counts as [|item rest]; simpl; [discriminate|].
  intros [= <-]. apply idxmax_from_in.
Qed.

Lemma key_leb_total (a b : Z * nat) : (a.1 <=? b.1) = true \/ (b.1 <=? a.1) = true.
Proof. rewrite !Z.leb_le. lia. Qed.

Lemma key_leb_trans (a b c : Z * nat) :
  (a.1 <=? b.1) = true -> (b.1 <=? c.1) = true -> (a.1 <=? c.1) = true.
Proof. rewrite !Z.leb_le. lia. Qed.

(** The counted items: every class that occurs, once, with its number of
    rows, in ascending order of the class. *)
Lemma severity_counts_items (df : DataFrame) :
  let items := sort_index (value_counts df) in
  NoDup items.*1 /\
  StronglySorted (fun a b => a.1 <= b.1) items /\
  (forall c n, (c, n) ∈ items -> n = length (where_class df c)) /\
  (forall c, c ∈ items.*1 <-> exists r, r ∈ df /\ Severity_Class r.2 = c).
Proof.
  intros items.
  pose proof (severity_counts_keys df) as Hkeys. fold items in Hkeys.
  split; [|split; [|split]].
  - rewrite Hkeys. apply NoDup_remove_dups.
  - eapply StronglySorted_weaken;
      [|apply (stable_sort_StronglySorted (fun a b : Z * nat => a.1 <=? b.1)
                 key_leb_total key_leb_trans)].
    intros x y. simpl. apply Z.leb_le.
  - intros c n Hin. unfold items, sort_index, value_counts in Hin.
    rewrite !stable_sort_Permutation in Hin.
    apply list_elem_of_fmap in Hin as (c' & [= -> ->] & _). reflexivity.
  - intros c. rewrite Hkeys, elem_of_remove_dups, list_elem_of_In, in_map_iff.
    split; intros (r & H1 & H2).
    + exists r. split; [apply list_elem_of_In; exact H2 | exact H1].
    + exists r. split; [exact H2 | apply list_elem_of_In; exact H1].
Qed.

(** [idxmax_from] on items in ascending key order: a key with the largest
    count, the smallest such key. *)
Lemma idxmax_from_spec (best : Z * nat) (counts : list (Z * nat)) :
  StronglySorted (fun a b => a.1 <= b.1) (best :: counts) ->
  exists n, (idxmax_from best counts, n) ∈ best :: counts /\
    (forall item, item ∈ best :: counts -> (item.2 <= n)%nat) /\
    (forall item, item ∈ best :: counts -> item.2 = n -> idxmax_from best counts <= item.1).
Proof.
  revert best; induction counts as [|item rest IH]; intros best Hs.
  - exists best.2. simpl. split; [destruct best; left|].
    split; intros item Hin; apply list_elem_of_singleton in Hin as ->; [lia|lia].
  - apply StronglySorted_inv in Hs as [Hs Hall].
    apply Forall_cons in Hall as [Hbi Hall].
    simpl. destruct (Nat.ltb_spec best.2 item.2) as [Hlt|Hge].
    + destruct (IH item Hs) as (n & Hin & Hmax & Hmin).
      exists n. split; [right; exact Hin|].
      pose proof (Hmax item ltac:(left)) as Hitem.
      split; intros it Hit; apply elem_of_cons in Hit as [->|Hit]; auto; lia.
    + assert (Hs' : StronglySorted (fun a b : Z * nat => a.1 <= b.1) (best :: rest)).
      { apply StronglySorted_inv in Hs as [Hs _]. constructor; assumption. }
      destruct (IH best Hs') as (n & Hin & Hmax & Hmin).
      exists n. split.
      * apply elem_of_cons in Hin as [Hin|Hin]; [rewrite Hin; left | right; right; exact Hin].
      * pose proof (Hmax best ltac:(left)) as Hbest.
        split; intros it Hit; apply elem_of_cons in Hit as [->|Hit].
        -- apply Hmax. left.
        -- apply elem_of_cons in Hit as [->|Hit]; [lia|]. apply Hmax. right. exact Hit.
        -- apply Hmin. left.
        -- apply elem_of_cons in Hit as [->|Hit]; [|apply Hmin; right; exact Hit].
           intros Heq. pose proof (Hmin best ltac:(left) ltac:(lia)). lia.
Qed.

(** X8: the class the loop cuts down is a class that occurs, has the
    largest number of rows, and among equally populated classes is the
    one with the smallest label. *)
Theorem most_populated_class_is_first_largest (df_tox_cleaned : DataFrame)
    (most_populated_class : Z) :
  idxmax (sort_index (value_counts df_tox_cleaned)) = Return most_populated_class ->
  (exists r, r ∈ df_tox_cleaned /\ Severity_Class r.2 = most_populated_class) /\
  (forall c, (length (where_class df_tox_cleaned c)
              <= length (where_class df_tox_cleaned most_populated_class))%nat) /\
  (forall c, (exists r, r ∈ df_tox_cleaned /\ Severity_Class r.2 = c) ->
     length (where_class df_tox_cleaned c)
       = length (where_class df_tox_cleaned most_populated_class) ->
     most_populated_class <= c).
Proof.
  intros Hmax.
  destruct (severity_counts_items df_tox_cleaned) as (Hnd & Hsorted & Hcount & Hin).
  destruct (sort_index (value_counts df_tox_cleaned)) as [|best counts] eqn:Hitems;
    [discriminate|].
  simpl in Hmax. injection Hmax as Hmax.
  destruct (idxmax_from_spec best counts Hsorted) as (n & Hmp & Hle & Hfirst).
  rewrite Hmax in Hmp, Hfirst.
  pose proof (Hcount _ _ Hmp) as ->.
  assert (Hitem : forall c, (exists r, r ∈ df_tox_cleaned /\ Severity_Class r.2 = c) ->
            (c, length (where_class df_tox_cleaned c)) ∈ best :: counts).
  { intros c Hc. apply Hin in Hc. apply list_elem_of_fmap in Hc as ([c' k] & -> & Hc).
    simpl. rewrite <- (Hcount _ _ Hc). exact Hc. }
  split; [|split].
  - apply Hin. apply list_elem_of_fmap. eexists. split; [|exact Hmp]. reflexivity.
  - intros c. destruct (where_class df_tox_cleaned c) as [|r rows] eqn:Hrows; [simpl; lia|].
    rewrite <- Hrows. apply (Hle (c, length (where_class df_tox_cleaned c))).
    apply Hitem. exists r. apply where_class_elem. rewrite Hrows. left.
  - intros c Hc Heq. apply (Hfirst (c, length (where_class df_tox_cleaned c))).
    + apply Hitem, Hc.
    + exact Heq.
Qed.

Lemma most_populated_class_is_first_largest_witness :
  (exists r, r ∈ drop_charged (fun _ => true) small_tox_table /\ Severity_Class r.2 = 8) /\
  (forall c, (length (where_class (drop_charged (fun _ => true) small_tox_table) c)
              <= length (where_class (drop_charged (fun _ => true) small_tox_table) 8))%nat) /\
  (forall c, (exists r, r ∈ drop_charged (fun _ => true) small_tox_table /\
                        Severity_Class r.2 = c) ->
     length (where_class (drop_charged (fun _ => true) small_tox_table) c)
       = length (where_class (drop_charged (fun _ => true) small_tox_table) 8) ->
     8 <= c).
Proof.
  apply (most_populated_class_is_first_largest
           (drop_charged (fun _ => true) small_tox_table) 8).
  vm_compute. reflexivity.
Defined.

Section UndersamplingOutcome.
Context `{Sampler}.
Variable df : DataFrame.
Hypothesis df_labels : NoDup (index df).

Lemma undersampling_loop_fails (mp : Z) (items : list (Z * nat)) (acc : DataFrame)
    (e : exception) :
  mp ∈ items.*1 ->
  sample (where_class df mp) desired_size 42 = Raise e ->
  undersampling_loop df mp items acc = Raise e.
Proof.
  intros Hin Hraise. revert acc; induction items as [|[c count] items IH]; intros acc.
  - apply elem_of_nil in Hin. contradiction.
  - simpl. destruct (Z.eqb_spec c mp) as [->|Hne].
    + rewrite Hraise. reflexivity.
    + simpl. rewrite loc_rows; [|exact df_labels|].
      * simpl. apply IH. rewrite fmap_cons in Hin.
        apply elem_of_cons in Hin as [Hin|Hin]; [simpl in Hin; congruence | exact Hin].
      * intros r Hr. apply where_class_elem in Hr as [Hr _]. exact Hr.
Qed.

(** The three ways the cell ends. *)
Lemma undersample_outcome :
  (df = [] /\ undersample df = Raise ValueError) \/
  (exists mp, idxmax (sort_index (value_counts df)) = Return mp /\
     (length (where_class df mp) < desired_size)%nat /\
     undersample df = Raise ValueError) \/
  (exists mp s, idxmax (sort_index (value_counts df)) = Return mp /\
     (desired_size <= length (where_class df mp))%nat /\
     sample (where_class df mp) desired_size 42 = Return s /\
     length s = desired_size /\ s ⊆+ where_class df mp /\
     undersample df =
       Return (flat_map (fun item => block df mp s item.1) (sort_index (value_counts df)))).
Proof.
  destruct (severity_counts_items df) as (_ & _ & _ & Hin).
  unfold undersample. cbv zeta.
  destruct (idxmax (sort_index (value_counts df))) as [mp|e] eqn:Hmax.
  - right. simpl.
    destruct (le_lt_dec desired_size (length (where_class df mp))) as [Hge|Hlt].
    + right. destruct (sample_draws (where_class df mp) desired_size 42 Hge)
        as (s & Hs & Hlen & Hsub).
      exists mp, s. rewrite (undersampling_loop_blocks df mp s df_labels Hs Hsub).
      repeat split; assumption || reflexivity.
    + left. exists mp. split; [reflexivity|]. split; [exact Hlt|].
      apply undersampling_loop_fails; [apply idxmax_in; exact Hmax|].
      apply sample_too_many. exact Hlt.
  - left. destruct (sort_index (value_counts df)) as [|item rest] eqn:Hitems; [|discriminate].
    simpl in Hmax. injection Hmax as <-. split; [|reflexivity].
    destruct df as [|r rows]; [reflexivity|]. exfalso.
    assert (Hr : Severity_Class r.2 ∈ ([] : list (Z * nat)).*1).
    { apply Hin. exists r. split; [left | reflexivity]. }
    apply elem_of_nil in Hr. exact Hr.
Qed.
End UndersamplingOutcome.

(** X9: the undersampling cell ends in [ValueError] exactly when it cannot
    draw 40 rows: on an empty table (there is no largest class), and when
    the most populated class has fewer than 40 rows (the sample is larger
    than the population).  In every other case it returns a frame. *)
Theorem undersample_fails_below_desired_size `{Sampler} (neutral : string -> bool)
    (df_tox : DataFrame) :
  let df_tox_cleaned := drop_charged neutral df_tox in
  let severity_counts := sort_index (value_counts df_tox_cleaned) in
  (df_tox_cleaned = [] -> undersample df_tox_cleaned = Raise ValueError) /\
  (df_tox_cleaned <> [] -> exists mp, idxmax severity_counts = Return mp) /\
  (forall mp, idxmax severity_counts = Return mp ->
     (length (where_class df_tox_cleaned mp) < desired_size)%nat ->
     undersample df_tox_cleaned = Raise ValueError) /\
  ((exists balanced_df, undersample df_tox_cleaned = Return balanced_df) <->
   (exists mp, idxmax severity_counts = Return mp /\
               (desired_size <= length (where_class df_tox_cleaned mp))%nat)) /\
  (forall e, undersample df_tox_cleaned = Raise e -> e = ValueError).
Proof.
  intros df items.
  pose proof (undersample_outcome df (NoDup_index_reset_index _)) as Hcases.
  fold items in Hcases.
  split; [|split; [|split; [|split]]].
  - intros Hnil.
    destruct Hcases as [[_ Hr]|[(mp & Hmax & _ & Hr)|(mp & s & Hmax & _)]]; try exact Hr.
    unfold items in Hmax. rewrite Hnil in Hmax. discriminate.
  - intros Hne.
    destruct Hcases as [[Hnil _]|[(mp & Hmax & _)|(mp & s & Hmax & _)]]; eauto.
    contradiction.
  - intros mp Hmax Hlt.
    destruct Hcases as [[_ Hr]|[(mp' & _ & _ & Hr)|(mp' & s & Hmax' & Hge & _)]];
      try exact Hr.
    rewrite Hmax in Hmax'. injection Hmax' as <-. lia.
  - split.
    + intros [b Hb].
      destruct Hcases as [[_ Hr]|[(mp & _ & _ & Hr)|(mp & s & Hmax & Hge & _)]];
        try congruence.
      eauto.
    + intros (mp & Hmax & Hge).
      destruct Hcases as [[Hnil _]|[(mp' & Hmax' & Hlt & _)|(mp' & s & _ & _ & _ & _ & _ & Hr)]].
      * unfold items in Hmax. rewrite Hnil in Hmax. discriminate.
      * rewrite Hmax in Hmax'. injection Hmax' as <-. lia.
      * eauto.
  - intros e He.
    destruct Hcases as [[_ Hr]|[(mp & _ & _ & Hr)|(mp & s & _ & _ & _ & _ & _ & Hr)]];
      congruence.
Qed.

Lemma where_class_cons (x : nat * ToxRow) (df : DataFrame) (c : Z) :
  where_class (x :: df) c =
  if Severity_Class x.2 =? c then x :: where_class df c else where_class df c.
Proof. reflexivity. Qed.

(** Taking the rows class by class, over the classes that occur, gives the
    frame back up to order. *)
Lemma where_class_partition (df : DataFrame) (keys : list (Z * nat)) :
  NoDup keys.*1 ->
  (forall r, r ∈ df -> Severity_Class r.2 ∈ keys.*1) ->
  flat_map (fun item => where_class df item.1) keys ≡ₚ df.
Proof.
  intros Hnd. induction df as [|x df IH]; intros Hcov.
  - induction keys as [|k keys IHk]; [reflexivity|].
    simpl. apply IHk.
    + rewrite fmap_cons in Hnd. apply NoDup_cons in Hnd as [_ Hnd]. exact Hnd.
    + intros r Hr. apply elem_of_nil in Hr. contradiction.
  - transitivity (x :: flat_map (fun item => where_class df item.1) keys);
      [|constructor; apply IH; intros r Hr; apply Hcov; right; exact Hr].
    pose proof (Hcov x ltac:(left)) as Hx. clear IH Hcov.
    induction keys as [|[k n] keys IHk]; [apply elem_of_nil in Hx; contradiction|].
    rewrite fmap_cons in Hnd, Hx. apply NoDup_cons in Hnd as [Hk Hnd].
    cbn [flat_map fst]. rewrite where_class_cons.
    destruct (Z.eqb_spec (Severity_Class x.2) k) as [Heq|Hne].
    + rewrite <- app_comm_cons. constructor. apply Permutation_app_head.
      assert (Hsame : forall item, In item keys ->
                where_class (x :: df) item.1 = where_class df item.1).
      { intros item Hitem. rewrite where_class_cons.
        destruct (Z.eqb_spec (Severity_Class x.2) item.1) as [Heq'|]; [|reflexivity].
        exfalso. apply Hk. simpl. rewrite <- Heq, Heq'.
        apply list_elem_of_fmap. exists item. split; [reflexivity|].
        apply list_elem_of_In. exact Hitem. }
      clear -Hsame. induction keys as [|item keys IH]; [reflexivity|].
      cbn [flat_map]. rewrite (Hsame item ltac:(left; reflexivity)).
      rewrite IH; [reflexivity|]. intros it Hit. apply Hsame. right. exact Hit.
    + apply elem_of_cons in Hx as [Hx|Hx]; [simpl in Hx; congruence|].
      rewrite (IHk Hnd Hx). symmetry. apply Permutation_middle.
Qed.

Section BalancedFrame.
Context `{Sampler}.
Variables (df : DataFrame) (mp : Z) (s : DataFrame).
Hypothesis sampled_sub : s ⊆+ where_class df mp.

(** The balanced frame and the full frame, cut at the most populated
    class. *)
Lemma blocks_split (keys : list (Z * nat)) :
  NoDup keys.*1 -> mp ∈ keys.*1 ->
  exists k1 k2 : list (Z * nat),
    flat_map (fun item => block df mp s item.1) keys =
      flat_map (fun item => where_class df item.1) k1 ++ s ++
      flat_map (fun item => where_class df item.1) k2 /\
    flat_map (fun item => where_class df item.1) keys =
      flat_map (fun item => where_class df item.1) k1 ++ where_class df mp ++
      flat_map (fun item => where_class df item.1) k2.
Proof.
  intros Hnd Hin.
  apply list_elem_of_fmap in Hin as ([c n] & Hc & Hin). simpl in Hc. subst c.
  apply list_elem_of_split in Hin as (k1 & k2 & ->).
  rewrite fmap_app, fmap_cons in Hnd. simpl in Hnd.
  apply NoDup_app in Hnd as (_ & Hk1 & Hk2). apply NoDup_cons in Hk2 as [Hk2 _].
  assert (Hk1' : mp ∉ k1.*1) by (intros Hm; apply (Hk1 mp Hm); left).
  assert (Hother : forall k : list (Z * nat), mp ∉ k.*1 ->
            flat_map (fun item => block df mp s item.1) k =
            flat_map (fun item => where_class df item.1) k).
  { induction k as [|[c m] k IHk]; intros Hk; [reflexivity|].
    rewrite fmap_cons, not_elem_of_cons in Hk. destruct Hk as [Hc Hk].
    cbn [flat_map fst]. rewrite (IHk Hk). unfold block at 1.
    destruct (Z.eqb_spec c mp) as [->|]; [|reflexivity]. simpl in Hc. congruence. }
  exists k1, k2. rewrite !flat_map_app. cbn [flat_map fst].
  rewrite (Hother k1 Hk1'), (Hother k2 Hk2).
  unfold block at 1. rewrite Z.eqb_refl. split; reflexivity.
Qed.

Lemma blocks_sorted (keys : list (Z * nat)) :
  StronglySorted (fun a b => a.1 <= b.1) keys ->
  StronglySorted (fun r1 r2 : nat * ToxRow => Severity_Class r1.2 <= Severity_Class r2.2)
    (flat_map (fun item => block df mp s item.1) keys).
Proof.
  induction 1 as [|item keys Hs IH Hall]; [constructor|].
  cbn [flat_map]. apply StronglySorted_app_2.
  - intros r1 r2 Hr1 Hr2.
    apply (block_rows df mp s sampled_sub) in Hr1 as [_ ->].
    apply list_elem_of_In, in_flat_map in Hr2 as (item' & Hitem' & Hr2).
    apply list_elem_of_In, (block_rows df mp s sampled_sub) in Hr2 as [_ ->].
    rewrite Forall_forall in Hall. apply Hall, list_elem_of_In, Hitem'.
  - assert (Hsame : forall r, r ∈ block df mp s item.1 -> Severity_Class r.2 = item.1)
      by (intros r Hr; apply (block_rows df mp s sampled_sub) in Hr as [_ Hr]; exact Hr).
    induction (block df mp s item.1) as [|r rows IHr]; constructor.
    + apply IHr. intros r' Hr'. apply Hsame. right. exact Hr'.
    + apply Forall_forall. intros r' Hr'.
      rewrite (Hsame r ltac:(left)), (Hsame r' ltac:(right; exact Hr')). lia.
  - exact IH.
Qed.
End BalancedFrame.

(** X10: the balanced frame takes no row twice.  It is a sub-multiset of
    the cleaned frame, its index labels are pairwise distinct, and it is
    shorter than the cleaned frame by exactly the rows cut from the most
    populated class. *)
Theorem undersample_takes_each_row_once `{Sampler} (neutral : string -> bool)
    (df_tox : DataFrame) (most_populated_class : Z) (balanced_df : DataFrame) :
  let df_tox_cleaned := drop_charged neutral df_tox in
  idxmax (sort_index (value_counts df_tox_cleaned)) = Return most_populated_class ->
  undersample df_tox_cleaned = Return balanced_df ->
  balanced_df ⊆+ df_tox_cleaned /\
  NoDup (index balanced_df) /\
  (length balanced_df + length (where_class df_tox_cleaned most_populated_class)
   = length df_tox_cleaned + desired_size)%nat.
Proof.
  intros df Hmax Hret.
  assert (Hnd : NoDup (index df)) by apply NoDup_index_reset_index.
  destruct (severity_counts_items df) as (Hkeys_nd & _ & _ & Hkeys_in).
  destruct (undersample_outcome df Hnd)
    as [[_ Hr]|[(mp & _ & _ & Hr)|(mp & s & Hmax' & Hge & Hs & Hlen & Hsub & Hr)]];
    try congruence.
  rewrite Hmax in Hmax'. injection Hmax' as <-.
  rewrite Hret in Hr. injection Hr as ->.
  assert (Hmp : most_populated_class ∈ (sort_index (value_counts df)).*1)
    by (apply idxmax_in; exact Hmax).
  destruct (blocks_split df most_populated_class s _ Hkeys_nd Hmp) as (k1 & k2 & Hb & Hfull).
  assert (Hperm : flat_map (fun item => where_class df item.1) (sort_index (value_counts df))
                  ≡ₚ df).
  { apply where_class_partition; [exact Hkeys_nd|].
    intros r Hr. apply Hkeys_in. eauto. }
  assert (Hsubm : flat_map (fun item => block df most_populated_class s item.1)
                    (sort_index (value_counts df)) ⊆+ df).
  { transitivity (flat_map (fun item => where_class df item.1)
                    (sort_index (value_counts df)));
      [|apply Permutation_submseteq; exact Hperm].
    rewrite Hb, Hfull.
    apply submseteq_app; [reflexivity|]. apply submseteq_app; [exact Hsub | reflexivity]. }
  split; [exact Hsubm|]. split.
  - unfold index in *. apply (fmap_submseteq fst) in Hsubm.
    apply submseteq_Permutation in Hsubm as [k Hk].
    rewrite Hk in Hnd. apply NoDup_app in Hnd as [Hnd _]. exact Hnd.
  - rewrite Hb. rewrite <- (Permutation_length Hperm), Hfull.
    rewrite !length_app, Hlen. lia.
Qed.

Lemma undersample_takes_each_row_once_witness :
  exists balanced_df,
    undersample (drop_charged (fun _ => true) small_tox_table) = Return balanced_df /\
    balanced_df ⊆+ drop_charged (fun _ => true) small_tox_table /\
    NoDup (index balanced_df) /\
    (length balanced_df + length (where_class (drop_charged (fun _ => true) small_tox_table) 8)
     = length (drop_charged (fun _ => true) small_tox_table) + desired_size)%nat.
Proof.
  destruct (undersample (drop_charged (fun _ => true) small_tox_table))
    as [balanced_df|e] eqn:Hrun.
  - exists balanced_df. split; [reflexivity|].
    apply (undersample_takes_each_row_once (fun _ => true) small_tox_table 8 balanced_df).
    + vm_compute. reflexivity.
    + exact Hrun.
  - vm_compute in Hrun. discriminate Hrun.
Defined.

(** X11: the balanced frame is grouped by severity class in ascending
    order, whatever the order of the cleaned frame. *)
Theorem undersample_grouped_by_class `{Sampler} (neutral : string -> bool)
    (df_tox : DataFrame) (balanced_df : DataFrame) :
  undersample (drop_charged neutral df_tox) = Return balanced_df ->
  StronglySorted (fun r1 r2 : nat * ToxRow => Severity_Class r1.2 <= Severity_Class r2.2)
    balanced_df.
Proof.
  set (df := drop_charged neutral df_tox). intros Hret.
  assert (Hnd : NoDup (index df)) by apply NoDup_index_reset_index.
  destruct (severity_counts_items df) as (_ & Hsorted & _).
  destruct (undersample_outcome df Hnd)
    as [[_ Hr]|[(mp & _ & _ & Hr)|(mp & s & _ & _ & _ & _ & Hsub & Hr)]];
    try congruence.
  rewrite Hret in Hr. injection Hr as ->.
  apply blocks_sorted; assumption.
Qed.

Lemma undersample_grouped_by_class_witness :
  exists balanced_df,
    undersample (drop_charged (fun _ => true) small_tox_table) = Return balanced_df /\
    StronglySorted (fun r1 r2 : nat * ToxRow => Severity_Class r1.2 <= Severity_Class r2.2)
      balanced_df.
Proof.
  destruct (undersample (drop_charged (fun _ => true) small_tox_table))
    as [balanced_df|e] eqn:Hrun.
  - exists balanced_df. split; [reflexivity|].
    apply (undersample_grouped_by_class (fun _ => true) small_tox_table balanced_df Hrun).
  - vm_compute in Hrun. discriminate Hrun.
Defined.

(** Items in ascending key order with pairwise distinct keys are determined
    by their elements. *)
Lemma sorted_items_unique (l1 l2 : list (Z * nat)) :
  NoDup l1.*1 -> NoDup l2.*1 ->
  StronglySorted (fun a b => a.1 <= b.1) l1 ->
  StronglySorted (fun a b => a.1 <= b.1) l2 ->
  (forall x, x ∈ l1 <-> x ∈ l2) ->
  l1 = l2.
Proof.
  revert l2; induction l1 as [|x t1 IH]; intros l2 N1 N2 S1 S2 Hel.
  - destruct l2 as [|y t2]; [reflexivity|].
    exfalso. apply (elem_of_nil y), Hel. left.
  - destruct l2 as [|y t2]; [exfalso; apply (elem_of_nil x), Hel; left|].
    rewrite fmap_cons in N1, N2.
    apply NoDup_cons in N1 as [Nx N1]. apply NoDup_cons in N2 as [Ny N2].
    apply StronglySorted_inv in S1 as [S1 F1]. apply StronglySorted_inv in S2 as [S2 F2].
    rewrite Forall_forall in F1, F2.
    assert (x = y) as <-.
    { pose proof (proj1 (Hel x) ltac:(left)) as Hx.
      pose proof (proj2 (Hel y) ltac:(left)) as Hy.
      apply elem_of_cons in Hx as [Hx|Hx]; [exact Hx|].
      apply elem_of_cons in Hy as [Hy|Hy]; [symmetry; exact Hy|].
      pose proof (F1 y Hy). pose proof (F2 x Hx).
      exfalso. apply Ny. replace y.1 with x.1 by lia.
      apply list_elem_of_fmap. exists x. split; [reflexivity | exact Hx]. }
    f_equal. apply IH; try assumption.
    intros z. split; intros Hz.
    + pose proof (proj1 (Hel z) ltac:(right; exact Hz)) as Hz'.
      apply elem_of_cons in Hz' as [->|Hz']; [|exact Hz'].
      exfalso. apply Nx. apply list_elem_of_fmap. exists x. split; [reflexivity | exact Hz].
    + pose proof (proj2 (Hel z) ltac:(right; exact Hz)) as Hz'.
      apply elem_of_cons in Hz' as [->|Hz']; [|exact Hz'].
      exfalso. apply Ny. apply list_elem_of_fmap. exists x. split; [reflexivity | exact Hz].
Qed.

Lemma severity_counts_elem (df : DataFrame) (c : Z) (n : nat) :
  (c, n) ∈ sort_index (value_counts df) <->
  (exists r, r ∈ df /\ Severity_Class r.2 = c) /\ n = length (where_class df c).
Proof.
  destruct (severity_counts_items df) as (_ & _ & Hcount & Hin).
  split.
  - intros Hel. split; [|apply Hcount; exact Hel].
    apply Hin. apply list_elem_of_fmap. exists (c, n). split; [reflexivity | exact Hel].
  - intros [Hc ->]. apply Hin in Hc.
    apply list_elem_of_fmap in Hc as ([c' k] & -> & Hc).
    simpl. rewrite <- (Hcount _ _ Hc). exact Hc.
Qed.

(** X12: counting the balanced frame again ([severity_counts2]) gives the
    same classes in the same order with the same counts, except that the
    most populated class now counts exactly 40. *)
Theorem balanced_severity_counts `{Sampler} (neutral : string -> bool)
    (df_tox : DataFrame) (most_populated_class : Z) (balanced_df : DataFrame) :
  let df_tox_cleaned := drop_charged neutral df_tox in
  idxmax (sort_index (value_counts df_tox_cleaned)) = Return most_populated_class ->
  undersample df_tox_cleaned = Return balanced_df ->
  sort_index (value_counts balanced_df) =
  map (cut_count most_populated_class) (sort_index (value_counts df_tox_cleaned)).
Proof.
  intros df Hmax Hret.
  assert (Hnd : NoDup (index df)) by apply NoDup_index_reset_index.
  destruct (severity_counts_items df) as (Hkeys_nd & Hsorted & _ & Hkeys_in).
  destruct (undersample_outcome df Hnd)
    as [[_ Hr]|[(mp & _ & _ & Hr)|(mp & s & Hmax' & Hge & Hs & Hlen & Hsub & Hr)]];
    try congruence.
  rewrite Hmax in Hmax'. injection Hmax' as <-.
  rewrite Hret in Hr. injection Hr as Hb.
  assert (Hmp : most_populated_class ∈ (sort_index (value_counts df)).*1)
    by (apply idxmax_in; exact Hmax).
  assert (Hsize : forall c, length (where_class balanced_df c) =
            if c =? most_populated_class then desired_size
            else length (where_class df c)).
  { intros c. rewrite Hb. destruct (decide (c ∈ (sort_index (value_counts df)).*1)) as [Hin|Hout].
    - rewrite (where_class_blocks_present df most_populated_class s Hsub _ c Hkeys_nd Hin).
      unfold block. destruct (c =? most_populated_class); [exact Hlen | reflexivity].
    - rewrite (where_class_blocks_absent df most_populated_class s Hsub _ c Hout).
      destruct (Z.eqb_spec c most_populated_class) as [->|_]; [contradiction|].
      rewrite where_class_nil; [reflexivity|].
      intros r Hr Heq. apply Hout, Hkeys_in. eauto. }
  assert (Hclasses : forall c, (exists r, r ∈ balanced_df /\ Severity_Class r.2 = c) <->
                               (exists r, r ∈ df /\ Severity_Class r.2 = c)).
  { intros c. split.
    - intros (r & Hr & Hc). exists r. split; [|exact Hc].
      rewrite Hb in Hr. apply list_elem_of_In, in_flat_map in Hr as (item & _ & Hr).
      apply list_elem_of_In in Hr.
      apply (block_rows df most_populated_class s Hsub item.1 r Hr).
    - intros (r & Hr & Hc).
      destruct (where_class balanced_df c) as [|r' rows] eqn:Hrows.
      + exfalso. specialize (Hsize c). rewrite Hrows in Hsize. simpl in Hsize.
        destruct (Z.eqb_spec c most_populated_class) as [Heq|Hne].
        * unfold desired_size in Hsize. lia.
        * assert (Hin : r ∈ where_class df c) by (apply where_class_elem; auto).
          destruct (where_class df c); [apply elem_of_nil in Hin; exact Hin | discriminate].
      + exists r'. apply where_class_elem. rewrite Hrows. left. }
  destruct (severity_counts_items balanced_df) as (Hnd_b & Hsorted_b & _ & _).
  apply sorted_items_unique.
  - exact Hnd_b.
  - replace ((map (cut_count most_populated_class) (sort_index (value_counts df))).*1)
      with ((sort_index (value_counts df)).*1); [exact Hkeys_nd|].
    clear. induction (sort_index (value_counts df)) as [|[c n] l IH]; [reflexivity|].
    cbn [map]. rewrite !fmap_cons. f_equal; [|exact IH].
    unfold cut_count. simpl. destruct (c =? most_populated_class); reflexivity.
  - exact Hsorted_b.
  - apply (StronglySorted_fmap (cut_count most_populated_class)
             (fun a b : Z * nat => a.1 <= b.1) (fun a b : Z * nat => a.1 <= b.1));
      [|exact Hsorted].
    intros [c n] [c' n']. unfold cut_count. simpl.
    destruct (c =? most_populated_class), (c' =? most_populated_class); simpl; auto.
  - intros [c n]. rewrite severity_counts_elem, Hclasses, Hsize. split.
    + intros [Hc ->]. apply list_elem_of_fmap.
      exists (c, length (where_class df c)). split.
      * unfold cut_count. simpl. destruct (c =? most_populated_class); reflexivity.
      * apply severity_counts_elem. split; [exact Hc | reflexivity].
    + intros Hel. apply list_elem_of_fmap in Hel as ([c' n'] & Heq & Hel).
      apply severity_counts_elem in Hel as [Hc ->].
      unfold cut_count in Heq. simpl in Heq.
      destruct (Z.eqb_spec c' most_populated_class) as [Hc'|Hne];
        injection Heq as <- <-;
        (match goal with
         | |- context [?a =? ?b] => destruct (Z.eqb_spec a b)
         end; try contradiction);
        (split; [exact Hc | reflexivity]).
Qed.

Lemma balanced_severity_counts_witness :
  exists balanced_df,
    undersample (drop_charged (fun _ => true) small_tox_table) = Return balanced_df /\
    sort_index (value_counts balanced_df) =
    map (cut_count 8) (sort_index (value_counts (drop_charged (fun _ => true) small_tox_table))).
Proof.
  destruct (undersample (drop_charged (fun _ => true) small_tox_table))
    as [balanced_df|e] eqn:Hrun.
  - exists balanced_df. split; [reflexivity|].
    apply (balanced_severity_counts (fun _ => true) small_tox_table 8 balanced_df).
    + vm_compute. reflexivity.
    + exact Hrun.
  - vm_compute in Hrun. discriminate Hrun.
Defined.

(** *** The charge filter *)

Lemma apply_SMILES_Some {Molecule Atom} `{SmilesToolkit Molecule Atom}
    (f : string -> option bool) (df : DataFrame) :
  (forall r, r ∈ df -> exists b, f (SMILES r.2) = Some b) ->
  apply_SMILES f df =
    Some (map (fun r => match f (SMILES r.2) with Some b => b | None => false end) df).
Proof.
  induction df as [|r df IH]; intros Hall; [reflexivity|].
  simpl. destruct (Hall r ltac:(left)) as [b ->].
  rewrite IH; [reflexivity|]. intros r' Hr'. apply Hall. right. exact Hr'.
Qed.

Lemma apply_SMILES_None {Molecule Atom} `{SmilesToolkit Molecule Atom}
    (f : string -> option bool) (df : DataFrame) :
  apply_SMILES f df = None <-> exists r, r ∈ df /\ f (SMILES r.2) = None.
Proof.
  induction df as [|r df IH]; simpl.
  - split; [discriminate|]. intros (r & Hr & _). apply elem_of_nil in Hr. contradiction.
  - destruct (f (SMILES r.2)) as [b|] eqn:Hf.
    + destruct (apply_SMILES f df) as [mask|].
      * split; [discriminate|]. intros (r' & Hr' & Hn).
        apply elem_of_cons in Hr' as [->|Hr']; [congruence|].
        assert (Hc : Some mask = None) by (apply IH; eauto). discriminate.
      * split; [|reflexivity]. intros _. destruct (proj1 IH eq_refl) as (r' & Hr' & Hn).
        exists r'. split; [right; exact Hr' | exact Hn].
    + split; [|reflexivity]. intros _. exists r. split; [left | exact Hf].
Qed.

Lemma select_rows_filter (p : nat * ToxRow -> bool) (df : DataFrame) :
  select_rows (map p df) df = List.filter p df.
Proof.
  unfold select_rows. induction df as [|r df IH]; [reflexivity|].
  cbn [map zip_with List.filter fst]. destruct (p r).
  - rewrite fmap_cons. cbn [snd]. f_equal. exact IH.
  - exact IH.
Qed.

Lemma filter_rows_snd (p : ToxRow -> bool) (df : DataFrame) :
  (List.filter (fun r => p r.2) df).*2 = List.filter p df.*2.
Proof.
  induction df as [|r df IH]; [reflexivity|].
  rewrite fmap_cons. cbn [List.filter]. destruct (p r.2).
  - rewrite fmap_cons. f_equal. exact IH.
  - exact IH.
Qed.

Lemma reset_index_rows (df : DataFrame) : (reset_index df).*2 = df.*2.
Proof.
  unfold reset_index. apply snd_zip. rewrite length_seq, length_fmap. reflexivity.
Qed.

(** X13: the charge filter ends in [AttributeError] exactly when some row's
    SMILES does not parse ([MolFromSmiles] gives [None]), whether or not
    that row would have been kept.  When every SMILES parses it returns
    the rows whose atoms all have formal charge 0, in their order, under
    the fresh labels 0, 1, 2, ... *)
Theorem charge_filter_cell_outcome {Molecule Atom} `{SmilesToolkit Molecule Atom}
    (df_tox_cleaned : DataFrame) :
  (charge_filter_cell df_tox_cleaned = AttributeError <->
     exists r, r ∈ df_tox_cleaned /\ MolFromSmiles (SMILES r.2) = None) /\
  ((forall r, r ∈ df_tox_cleaned -> exists mol, MolFromSmiles (SMILES r.2) = Some mol) ->
     exists kept,
       charge_filter_cell df_tox_cleaned = Filtered kept /\
       kept = drop_charged neutral_smiles df_tox_cleaned /\
       kept.*2 = List.filter
                   (fun row => match MolFromSmiles (SMILES row) with
                               | Some mol =>
                                   forallb (fun atom => GetFormalCharge atom =? 0) (GetAtoms mol)
                               | None => false
                               end) df_tox_cleaned.*2 /\
       index kept = seq 0 (length kept)).
Proof.
  split.
  - unfold charge_filter_cell.
    destruct (apply_SMILES all_atoms_neutral df_tox_cleaned) as [mask|] eqn:Hmask.
    + split; [discriminate|]. intros (r & Hr & Hn).
      assert (Hc : apply_SMILES all_atoms_neutral df_tox_cleaned = None).
      { apply apply_SMILES_None. exists r. split; [exact Hr|].
        unfold all_atoms_neutral. rewrite Hn. reflexivity. }
      congruence.
    + split; [|reflexivity]. intros _.
      apply apply_SMILES_None in Hmask as (r & Hr & Hn). exists r. split; [exact Hr|].
      unfold all_atoms_neutral in Hn. destruct (MolFromSmiles (SMILES r.2)); [discriminate|].
      reflexivity.
  - intros Hall. exists (drop_charged neutral_smiles df_tox_cleaned).
    split; [|split; [reflexivity|split]].
    + unfold charge_filter_cell. rewrite apply_SMILES_Some.
      * unfold drop_charged. do 2 f_equal.
        exact (select_rows_filter (fun r => neutral_smiles (SMILES r.2)) df_tox_cleaned).
      * intros r Hr. destruct (Hall r Hr) as [mol Hmol].
        unfold all_atoms_neutral. rewrite Hmol. eauto.
    + unfold drop_charged. rewrite reset_index_rows.
      rewrite (filter_rows_snd (fun row => neutral_smiles (SMILES row))).
      apply List.filter_ext. intros row.
      unfold neutral_smiles, all_atoms_neutral.
      destruct (MolFromSmiles (SMILES row)); reflexivity.
    + unfold drop_charged. rewrite index_reset_index.
      unfold reset_index. rewrite length_zip_with, length_seq, length_fmap.
      rewrite Nat.min_id. reflexivity.
Qed.

(** *** The top-ten cells keep the best rows *)

Lemma sort_values_split `{SortValues} {Row} (by_ : Row -> option Q) ascending
    (df : list Row) (k : nat) :
  let kept := take k (sort_values by_ ascending df) in
  let left_out := drop k (sort_values by_ ascending df) in
  kept ++ left_out ≡ₚ df /\
  forall r1 r2, r1 ∈ kept -> r2 ∈ left_out -> row_leb by_ ascending r1 r2 = true.
Proof.
  intros kept left_out. split.
  - unfold kept, left_out. rewrite take_drop. apply sort_values_Permutation.
  - intros r1 r2 H1 H2.
    pose proof (sort_values_StronglySorted by_ ascending df) as Hs.
    rewrite <- (take_drop k (sort_values by_ ascending df)) in Hs.
    apply (StronglySorted_app_1_elem_of _ _ _ r1 r2 Hs H1 H2).
Qed.

(** X14: each top-ten cell splits the dataset into the rows it shows and
    the rows it leaves out, and no row left out beats a row shown: for the
    Tanimoto cell none has a higher [MACCS_ts]; for the shape cell none
    has a lower [ShapeSimilarity], and a row without a score is shown only
    if every row left out has none either. *)
Theorem top_hits_keep_the_best `{SortValues} (dataset : list Candidate) :
  (exists left_out,
     top_hits_MACCS dataset ++ left_out ≡ₚ dataset /\
     forall shown r, shown ∈ top_hits_MACCS dataset -> r ∈ left_out ->
       (MACCS_ts r <= MACCS_ts shown)%Q) /\
  (exists left_out,
     top_hits_Shape dataset ++ left_out ≡ₚ dataset /\
     forall shown r, shown ∈ top_hits_Shape dataset -> r ∈ left_out ->
       match ShapeSimilarity shown, ShapeSimilarity r with
       | Some x, Some y => (x <= y)%Q
       | Some _, None => True
       | None, Some _ => False
       | None, None => True
       end).
Proof.
  split.
  - destruct (sort_values_split (fun r => Some (MACCS_ts r)) false dataset 10) as [Hp Hbest].
    eexists. split; [exact Hp|].
    intros shown r Hs Hr. specialize (Hbest shown r Hs Hr).
    unfold row_leb in Hbest. simpl in Hbest. apply Qle_bool_iff. exact Hbest.
  - destruct (sort_values_split ShapeSimilarity true dataset 10) as [Hp Hbest].
    eexists. split; [exact Hp|].
    intros shown r Hs Hr. specialize (Hbest shown r Hs Hr).
    unfold row_leb in Hbest.
    destruct (ShapeSimilarity shown), (ShapeSimilarity r); simpl in Hbest;
      try exact I; try discriminate.
    apply Qle_bool_iff. exact Hbest.
Qed.

(** *** The fingerprint table and its merge *)

Lemma filter_length_pos {A} (p : A -> bool) (l : list A) (x : A) :
  x ∈ l -> p x = true -> (1 <= length (List.filter p l))%nat.
Proof.
  intros Hx Hp. assert (Hin : In x (List.filter p l)).
  { apply filter_In. split; [apply list_elem_of_In; exact Hx | exact Hp]. }
  destruct (List.filter p l); [contradiction | simpl; lia].
Qed.

Lemma filter_length_two {A} (p : A -> bool) (l : list A) (i j : nat) (a b : A) :
  (i < j)%nat -> l !! i = Some a -> l !! j = Some b -> p a = true -> p b = true ->
  (2 <= length (List.filter p l))%nat.
Proof.
  intros Hij Ha Hb Hpa Hpb.
  rewrite <- (take_drop_middle l i a Ha), List.filter_app, length_app.
  cbn [List.filter]. rewrite Hpa. cbn [length].
  assert (Hin : b ∈ drop (S i) l).
  { apply list_elem_of_lookup. exists (j - S i)%nat. rewrite lookup_drop.
    replace (S i + (j - S i))%nat with j by lia. exact Hb. }
  pose proof (filter_length_pos p _ b Hin Hpb). lia.
Qed.

Lemma list_sum_ge_length {A} (g : A -> nat) (l : list A) :
  (forall x, x ∈ l -> (1 <= g x)%nat) -> (length l <= list_sum (map g l))%nat.
Proof.
  induction l as [|y l IH]; intros Hall; simpl; [lia|].
  pose proof (Hall y ltac:(left)).
  pose proof (IH (fun x Hx => Hall x ltac:(right; exact Hx))). lia.
Qed.

Lemma list_sum_gt_length {A} (g : A -> nat) (l : list A) (x : A) :
  (forall y, y ∈ l -> (1 <= g y)%nat) -> x ∈ l -> (2 <= g x)%nat ->
  (length l < list_sum (map g l))%nat.
Proof.
  induction l as [|y l IH]; intros Hall Hx Hg; [apply elem_of_nil in Hx; contradiction|].
  simpl. pose proof (Hall y ltac:(left)) as Hy.
  assert (Hall' : forall z, z ∈ l -> (1 <= g z)%nat) by (intros z Hz; apply Hall; right; exact Hz).
  apply elem_of_cons in Hx as [->|Hx].
  - pose proof (list_sum_ge_length g l Hall'). lia.
  - pose proof (IH Hall' Hx Hg). lia.
Qed.

Section FingerprintTableFacts.
Context {Molecule Atom Fingerprint : Type}
  `{SmilesToolkit Molecule Atom} `{MACCSKeys Molecule Fingerprint}.

Lemma maccs_fingerprints_list_rows (df : DataFrame) (df_maccs : list (MaccsRow Fingerprint)) :
  maccs_fingerprints_list df = Some df_maccs -> Forall2 stored_for df df_maccs.
Proof.
  revert df_maccs; induction df as [|[k row] df IH]; intros df_maccs; simpl.
  - intros [= <-]. constructor.
  - destruct (MolFromSmiles (SMILES row)) as [mol|] eqn:Hmol; [|discriminate].
    destruct (maccs_fingerprints_list df) as [records|]; [|discriminate].
    intros [= <-]. constructor; [|apply IH; reflexivity].
    unfold stored_for. simpl. eauto.
Qed.

Lemma name_selects_row (df_maccs : list (MaccsRow Fingerprint)) (m : MaccsRow Fingerprint) :
  NoDup (map maccs_Compound_Name df_maccs) -> m ∈ df_maccs ->
  List.filter (fun x => String.eqb (maccs_Compound_Name m) (maccs_Compound_Name x)) df_maccs
  = [m].
Proof.
  induction df_maccs as [|x l IH]; intros Hnd Hm.
  - apply elem_of_nil in Hm. contradiction.
  - cbn [map] in Hnd. apply NoDup_cons in Hnd as [Hx Hnd].
    cbn [List.filter]. apply elem_of_cons in Hm as [->|Hm].
    + rewrite String.eqb_refl. f_equal.
      clear IH Hnd. induction l as [|y l IH]; [reflexivity|].
      cbn [map] in Hx. rewrite not_elem_of_cons in Hx. destruct Hx as [Hne Hx].
      cbn [List.filter]. destruct (String.eqb_spec (maccs_Compound_Name x) (maccs_Compound_Name y));
        [congruence|]. apply IH, Hx.
    + destruct (String.eqb_spec (maccs_Compound_Name m) (maccs_Compound_Name x)) as [Heq|_].
      * exfalso. apply Hx. rewrite <- Heq. apply list_elem_of_In, in_map, list_elem_of_In, Hm.
      * apply IH; assumption.
Qed.

Lemma merge_one_each (all ms : list (MaccsRow Fingerprint)) (df : DataFrame) :
  Forall2 (fun r m => same_Compound_Name r.2 all = [m]) df ms ->
  flat_map (fun r => map (fun m => (r.2, m)) (same_Compound_Name r.2 all)) df
  = zip df.*2 ms.
Proof.
  induction 1 as [|r m df ms Hr _ IH]; [reflexivity|].
  cbn [flat_map]. rewrite Hr, IH. reflexivity.
Qed.
End FingerprintTableFacts.

(** X15: the fingerprint loop stores one record per row, in order, and
    the merge on 'Compound Name' pairs every row with every record of the
    same name.  With pairwise distinct names each row gets its own
    fingerprint and the table keeps its length; as soon as two rows share
    a name the merged table is longer than the cleaned one. *)
Theorem merge_multiplies_repeated_names {Molecule Atom Fingerprint : Type}
    `{SmilesToolkit Molecule Atom} `{MACCSKeys Molecule Fingerprint}
    (df_tox_cleaned : DataFrame) (df_maccs : list (MaccsRow Fingerprint)) :
  maccs_fingerprints_list df_tox_cleaned = Some df_maccs ->
  let merged := merge_on_Compound_Name df_tox_cleaned df_maccs in
  Forall2 stored_for df_tox_cleaned df_maccs /\
  (length df_tox_cleaned <= length merged)%nat /\
  (NoDup (map (fun r => Compound_Name r.2) df_tox_cleaned) ->
     merged = zip df_tox_cleaned.*2 df_maccs) /\
  (forall i j r1 r2,
     i <> j -> df_tox_cleaned !! i = Some r1 -> df_tox_cleaned !! j = Some r2 ->
     Compound_Name r1.2 = Compound_Name r2.2 ->
     (length df_tox_cleaned < length merged)%nat).
Proof.
  intros Hloop merged.
  pose proof (maccs_fingerprints_list_rows _ _ Hloop) as Hrows.
  assert (Hlen : length merged =
            list_sum (map (fun r => length (same_Compound_Name r.2 df_maccs)) df_tox_cleaned)).
  { unfold merged, merge_on_Compound_Name. rewrite length_flat_map.
    f_equal. apply map_ext. intros r. apply length_map. }
  assert (Hown : forall i r, df_tox_cleaned !! i = Some r ->
            exists m, df_maccs !! i = Some m /\ stored_for r m).
  { intros i r Hr. eapply Forall2_lookup_l in Hrows as (m & Hm & Hs); eauto. }
  assert (Hone : forall r, r ∈ df_tox_cleaned ->
            (1 <= length (same_Compound_Name r.2 df_maccs))%nat).
  { intros r Hr. apply list_elem_of_lookup in Hr as [i Hi].
    destruct (Hown i r Hi) as (m & Hm & Hname & _).
    apply (filter_length_pos _ _ m).
    - apply list_elem_of_lookup. eauto.
    - rewrite Hname. apply String.eqb_refl. }
  split; [exact Hrows|]. split; [|split].
  - rewrite Hlen. apply list_sum_ge_length. exact Hone.
  - intros Hnd. unfold merged, merge_on_Compound_Name. apply merge_one_each.
    assert (Hnames : map maccs_Compound_Name df_maccs
                     = map (fun r => Compound_Name r.2) df_tox_cleaned).
    { clear -Hrows. induction Hrows as [|r m df ms [Hn _] _ IH]; [reflexivity|].
      cbn [map]. rewrite Hn, IH. reflexivity. }
    rewrite <- Hnames in Hnd.
    apply Forall2_same_length_lookup_2; [eapply Forall2_length; exact Hrows|].
    intros i r m Hr Hm. destruct (Hown i r Hr) as (m' & Hm' & Hname & _).
    rewrite Hm in Hm'. injection Hm' as <-.
    unfold same_Compound_Name. rewrite <- Hname.
    apply name_selects_row; [exact Hnd|]. apply list_elem_of_lookup. eauto.
  - intros i j r1 r2 Hij H1 H2 Hsame. rewrite Hlen.
    destruct (Hown i r1 H1) as (m1 & Hm1 & Hn1 & _).
    destruct (Hown j r2 H2) as (m2 & Hm2 & Hn2 & _).
    apply (list_sum_gt_length _ _ r1 Hone); [apply list_elem_of_lookup; eauto|].
    unfold same_Compound_Name.
    destruct (Nat.lt_total i j) as [Hlt|[Heq|Hgt]]; [|contradiction|].
    + apply (filter_length_two _ _ i j m1 m2 Hlt Hm1 Hm2).
      * rewrite Hn1. apply String.eqb_refl.
      * rewrite Hn2, Hsame. apply String.eqb_refl.
    + apply (filter_length_two _ _ j i m2 m1 Hgt Hm2 Hm1).
      * rewrite Hn2, Hsame. apply String.eqb_refl.
      * rewrite Hn1. apply String.eqb_refl.
Qed.

Lemma merge_multiplies_repeated_names_witness :
  exists df_maccs : list (MaccsRow nat),
    maccs_fingerprints_list repeated_name_table = Some df_maccs /\
    (length repeated_name_table
     < length (merge_on_Compound_Name repeated_name_table df_maccs))%nat.
Proof.
  destruct (maccs_fingerprints_list repeated_name_table) as [df_maccs|] eqn:Hloop.
  - exists df_maccs. split; [reflexivity|].
    refine (proj2 (proj2 (proj2 (merge_multiplies_repeated_names
                     repeated_name_table df_maccs Hloop)))
              0%nat 2%nat (tox_row "aspirin" 3) (tox_row "aspirin" 3) _ _ _ _);
      [discriminate | reflexivity | reflexivity | reflexivity].
  - vm_compute in Hloop. discriminate Hloop.
Defined.

Lemma maccs_fingerprints_list_parses {Molecule Atom Fingerprint : Type}
    `{SmilesToolkit Molecule Atom} `{MACCSKeys Molecule Fingerprint} (df : DataFrame) :
  (forall r, r ∈ df -> exists mol, MolFromSmiles (SMILES r.2) = Some mol) ->
  exists df_maccs : list (MaccsRow Fingerprint), maccs_fingerprints_list df = Some df_maccs.
Proof.
  induction df as [|[k row] df IH]; intros Hall; simpl; [eauto|].
  destruct (Hall (k, row) ltac:(left)) as [mol Hmol]. simpl in Hmol. rewrite Hmol.
  destruct IH as [records ->]; [|eauto].
  intros r Hr. apply Hall. right. exact Hr.
Qed.

Lemma charge_filter_cell_rows {Molecule Atom} `{SmilesToolkit Molecule Atom}
    (df kept : DataFrame) :
  charge_filter_cell df = Filtered kept ->
  forall r, r ∈ kept ->
    exists mol, MolFromSmiles (SMILES r.2) = Some mol /\
      forallb (fun atom => GetFormalCharge atom =? 0) (GetAtoms mol) = true.
Proof.
  unfold charge_filter_cell.
  destruct (apply_SMILES all_atoms_neutral df) as [mask|] eqn:Hmask; [|discriminate].
  intros [= <-] r Hr.
  assert (Hall : forall r, r ∈ df -> exists b, all_atoms_neutral (SMILES r.2) = Some b).
  { intros r' Hr'. destruct (all_atoms_neutral (SMILES r'.2)) as [b|] eqn:Hb; [eauto|].
    assert (Hc : apply_SMILES all_atoms_neutral df = None)
      by (apply apply_SMILES_None; eauto).
    congruence. }
  rewrite (apply_SMILES_Some _ _ Hall) in Hmask. injection Hmask as <-.
  assert (Hrow : r.2 ∈ (List.filter (fun x : nat * ToxRow => neutral_smiles (SMILES x.2)) df).*2).
  { rewrite <- (reset_index_rows (List.filter _ df)).
    apply list_elem_of_fmap. exists r. split; [reflexivity|].
    rewrite <- (select_rows_filter (fun x => neutral_smiles (SMILES x.2)) df). exact Hr. }
  apply list_elem_of_fmap in Hrow as (r0 & Heq & Hr0).
  apply list_elem_of_In, filter_In in Hr0 as [_ Hn]. rewrite <- Heq in Hn.
  unfold neutral_smiles, all_atoms_neutral in Hn.
  destruct (MolFromSmiles (SMILES r.2)) as [mol|]; [|discriminate]. eauto.
Qed.

(** X16: once the charge filter has returned a frame, the fingerprint loop
    over that frame cannot meet a SMILES that does not parse: it stores
    one record per kept row, and every stored fingerprint is that of a
    molecule all of whose atoms have formal charge 0. *)
Theorem fingerprint_loop_after_charge_filter {Molecule Atom Fingerprint : Type}
    `{SmilesToolkit Molecule Atom} `{MACCSKeys Molecule Fingerprint}
    (df_tox : DataFrame) (df_tox_cleaned : DataFrame) :
  charge_filter_cell df_tox = Filtered df_tox_cleaned ->
  exists df_maccs : list (MaccsRow Fingerprint),
    maccs_fingerprints_list df_tox_cleaned = Some df_maccs /\
    length df_maccs = length df_tox_cleaned /\
    forall m, m ∈ df_maccs ->
      exists mol, MolFromSmiles (maccs_smiles m) = Some mol /\
        maccs_fingerprint m = GetMACCSKeysFingerprint mol /\
        forallb (fun atom => GetFormalCharge atom =? 0) (GetAtoms mol) = true.
Proof.
  intros Hcell.
  pose proof (charge_filter_cell_rows df_tox df_tox_cleaned Hcell) as Hrows.
  destruct (maccs_fingerprints_list_parses df_tox_cleaned) as [df_maccs Hloop].
  { intros r Hr. destruct (Hrows r Hr) as (mol & Hmol & _). eauto. }
  exists df_maccs. split; [exact Hloop|].
  pose proof (maccs_fingerprints_list_rows _ _ Hloop) as Hstored.
  split; [symmetry; eapply Forall2_length; exact Hstored|].
  intros m Hm. apply list_elem_of_lookup in Hm as [i Hi].
  eapply Forall2_lookup_r in Hstored as (r & Hr & _ & Hsm & mol & Hmol & Hfp); [|exact Hi].
  destruct (Hrows r) as (mol' & Hmol' & Hneutral); [apply list_elem_of_lookup; eauto|].
  rewrite Hmol in Hmol'. injection Hmol' as <-.
  exists mol. rewrite Hsm. auto.
Qed.

Lemma fingerprint_loop_after_charge_filter_witness :
  exists df_maccs : list (MaccsRow nat),
    maccs_fingerprints_list (drop_charged neutral_smiles repeated_name_table) = Some df_maccs /\
    length df_maccs = length (drop_charged neutral_smiles repeated_name_table) /\
    forall m, m ∈ df_maccs ->
      exists mol, MolFromSmiles (maccs_smiles m) = Some mol /\
        maccs_fingerprint m = GetMACCSKeysFingerprint mol /\
        forallb (fun atom => GetFormalCharge atom =? 0) (GetAtoms mol) = true.
Proof.
  apply (fingerprint_loop_after_charge_filter repeated_name_table
           (drop_charged neutral_smiles repeated_name_table)).
  vm_compute. reflexivity.
Defined.
